(** * Verification of the sortable tables of the mvp frontend

    Shallow embedding of [src/mvp-frontend/src/app/page.tsx] (predictions
    page; [src/unnamed/part_000] is an earlier copy of the same page with
    the same comparator), and of [src/mvp-frontend/src/app/history/page.tsx]
    (of which page.tsx keeps a copy from line 199 on).

    JavaScript numbers coming from the JSON API are finite doubles; they are
    modelled by their exact rational value ([Q]).  On finite doubles, [<] and
    [>] are the exact order of these values, and the sign of [b - a] is the
    sign of the exact difference (IEEE subtraction never rounds a non-zero
    difference to zero), so [Array.prototype.sort], which only looks at the
    sign of the comparator, behaves the same on the rational model. *)

From Stdlib Require Import QArith Qabs Qround Lqa Permutation Sorted String Ascii.
From stdpp Require Import base list pretty.

Open Scope Q_scope.

(** ** JavaScript values used by the comparators *)

(** [a[sortKey] ?? -Infinity]: either a finite number or [-Infinity]. *)
Inductive ext : Type :=
| NegInf : ext
| Fin : Q -> ext.

Definition Qltb (x y : Q) : bool := negb (Qle_bool y x).

(** The abstract relational comparison [<] restricted to [ext]. *)
Definition ext_lt (a b : ext) : bool :=
  match a, b with
  | NegInf, NegInf => false
  | NegInf, Fin _ => true
  | Fin _, NegInf => false
  | Fin x, Fin y => Qltb x y
  end.

(** ** [Array.prototype.sort]

    The comparator returns a number; the sort only looks at its sign.
    Since ES2019 the sort is stable; for a consistent comparator every stable
    sorting algorithm (V8 uses TimSort) returns the same array, so it is
    modelled here by a stable insertion sort: the element that came first in
    the input stays first when the comparator returns [0]. *)
Section JsSort.
Context {A : Type} (cmp : A -> A -> Q).

Fixpoint js_insert (x : A) (l : list A) : list A :=
  match l with
  | [] => [x]
  | y :: l' => if Qle_bool (cmp x y) 0 then x :: y :: l' else y :: js_insert x l'
  end.

Fixpoint js_sort (l : list A) : list A :=
  match l with
  | [] => []
  | x :: l' => js_insert x (js_sort l')
  end.
End JsSort.

(** ** The predictions page: [GameView] *)

Inductive game_id_t : Type :=
| GIdStr : string -> game_id_t
| GIdNum : Q -> game_id_t.

(** A row as received from [res.json()].  The comparator reads rows through
    [any], with [??] defaults, so each numeric field is kept as an optional
    number: [None] stands for [null] or an absent property. *)
Record GameView : Type := mkGameView {
  game_id : game_id_t;
  week : option Q;
  away_team : string;
  home_team : string;
  home_off_epa : option Q;
  away_def_epa_allowed : option Q;
  home_off_vs_away_def : option Q;
  away_off_epa : option Q;
  home_def_epa_allowed : option Q;
  away_off_vs_home_def : option Q;
  net_epa_per_play : option Q;
  K_pair : option Q;
  pred_margin : option Q;
  home_win_prob : option Q;
  pick : string;
  pick_prob : option Q
}.

(** The numeric keys of [GameView]; [sortKey] starts at ["pick_prob"] and
    [toggleSort] is only called with ["pred_margin"], ["home_win_prob"],
    ["pick_prob"], ["net_epa_per_play"] and ["K_pair"]. *)
Inductive game_key : Type :=
| k_week | k_home_off_epa | k_away_def_epa_allowed | k_home_off_vs_away_def
| k_away_off_epa | k_home_def_epa_allowed | k_away_off_vs_home_def
| k_net_epa_per_play | k_K_pair | k_pred_margin | k_home_win_prob | k_pick_prob.

#[global] Instance game_key_eq_dec : EqDecision game_key.
Proof. solve_decision. Defined.

(** [a[sortKey]] *)
Definition game_get (k : game_key) (g : GameView) : option Q :=
  match k with
  | k_week => week g
  | k_home_off_epa => home_off_epa g
  | k_away_def_epa_allowed => away_def_epa_allowed g
  | k_home_off_vs_away_def => home_off_vs_away_def g
  | k_away_off_epa => away_off_epa g
  | k_home_def_epa_allowed => home_def_epa_allowed g
  | k_away_off_vs_home_def => away_off_vs_home_def g
  | k_net_epa_per_play => net_epa_per_play g
  | k_K_pair => K_pair g
  | k_pred_margin => pred_margin g
  | k_home_win_prob => home_win_prob g
  | k_pick_prob => pick_prob g
  end.

Inductive sort_dir : Type := asc | desc.

#[global] Instance sort_dir_eq_dec : EqDecision sort_dir.
Proof. solve_decision. Defined.

(** [x ?? -Infinity] *)
Definition or_neg_inf (o : option Q) : ext :=
  match o with Some q => Fin q | None => NegInf end.

(** [x ?? 0] *)
Definition or_zero (o : option Q) : Q :=
  match o with Some q => q | None => 0 end.

(** The comparator passed to [copy.sort] (page.tsx, lines 61-67). *)
Definition game_cmp (sortKey : game_key) (sortDir : sort_dir)
    (a b : GameView) : Q :=
  let av := or_neg_inf (game_get sortKey a) in
  let bv := or_neg_inf (game_get sortKey b) in
  if ext_lt av bv then (match sortDir with asc => -1 | desc => 1 end)
  else if ext_lt bv av then (match sortDir with asc => 1 | desc => -1 end)
  else or_zero (pick_prob b) - or_zero (pick_prob a).

(** The [sorted] memo: [const copy = [...rows]; copy.sort(...); return copy]. *)
Definition game_sorted (rows : list GameView) (sortKey : game_key)
    (sortDir : sort_dir) : list GameView :=
  js_sort (game_cmp sortKey sortDir) rows.

(** [cmp_le cmp a b]: the comparator does not ask for [b] before [a]. *)
Definition cmp_le {A : Type} (cmp : A -> A -> Q) (a b : A) : Prop := cmp a b <= 0.

(** A predictions row with only a margin and a pick probability set. *)
Definition margin_row (id : string) (m p : Q) : GameView :=
  mkGameView (GIdStr id) None "" "" None None None None None None None None
    (Some m) None "" (Some p).

(** ** The history page: [HistoryRow] *)

(** Every field of [HistoryRow] is required; its comparator reads
    [a[sortKey]] without a default. *)
Record HistoryRow : Type := mkHistoryRow {
  h_id : Q;
  h_season : Q;
  h_week : Q;
  h_game_id : string;
  h_created_at : string;
  h_home_team : string;
  h_away_team : string;
  h_pred_margin : Q;
  h_home_win_prob : Q;
  h_pick : string;
  h_pick_prob : Q
}.

Inductive history_key : Type :=
| hk_id | hk_season | hk_week | hk_game_id | hk_created_at | hk_home_team
| hk_away_team | hk_pred_margin | hk_home_win_prob | hk_pick | hk_pick_prob.

#[global] Instance history_key_eq_dec : EqDecision history_key.
Proof. solve_decision. Defined.

(** A field value: a number or a string. *)
Inductive hval : Type :=
| HNum : Q -> hval
| HStr : string -> hval.

Definition history_get (k : history_key) (r : HistoryRow) : hval :=
  match k with
  | hk_id => HNum (h_id r)
  | hk_season => HNum (h_season r)
  | hk_week => HNum (h_week r)
  | hk_game_id => HStr (h_game_id r)
  | hk_created_at => HStr (h_created_at r)
  | hk_home_team => HStr (h_home_team r)
  | hk_away_team => HStr (h_away_team r)
  | hk_pred_margin => HNum (h_pred_margin r)
  | hk_home_win_prob => HNum (h_home_win_prob r)
  | hk_pick => HStr (h_pick r)
  | hk_pick_prob => HNum (h_pick_prob r)
  end.

(** [<] on two strings compares code units lexicographically; on the ASCII
    strings of the API this is [String.compare].  A given key always holds
    values of one type, so the mixed cases never arise. *)
Definition hval_lt (a b : hval) : bool :=
  match a, b with
  | HNum x, HNum y => Qltb x y
  | HStr s, HStr t => match String.compare s t with Lt => true | _ => false end
  | _, _ => false
  end.

(** The comparator of history/page.tsx, lines 67-73: no default for a
    missing value and no tie-breaker. *)
Definition history_cmp (sortKey : history_key) (sortDir : sort_dir)
    (a b : HistoryRow) : Q :=
  let av := history_get sortKey a in
  let bv := history_get sortKey b in
  if hval_lt av bv then (match sortDir with asc => -1 | desc => 1 end)
  else if hval_lt bv av then (match sortDir with asc => 1 | desc => -1 end)
  else 0.

Definition history_sorted (rows : list HistoryRow) (sortKey : history_key)
    (sortDir : sort_dir) : list HistoryRow :=
  js_sort (history_cmp sortKey sortDir) rows.


(** Equality of two field values, as in [===]. *)
Definition hval_eqb (a b : hval) : bool :=
  match a, b with
  | HNum x, HNum y => Qeq_bool x y
  | HStr s, HStr t => String.eqb s t
  | _, _ => false
  end.

(** ** The [sorted] memo on the JavaScript heap

    Arrays live in a store indexed by references; records are immutable
    values inside them (the comparator only reads them, the sort only moves
    them).  [[...rows]] allocates a fresh array holding the same records,
    and [copy.sort] updates that array in place. *)
Abbreviation heap A := (list (list A)).

Definition spread {A : Type} (h : heap A) (r : nat) : option (heap A * nat) :=
  arr ← h !! r; Some (h ++ [arr], length h).

Definition sort_in_place {A : Type} (cmp : A -> A -> Q) (h : heap A) (c : nat)
    : heap A :=
  match h !! c with
  | Some arr => <[c := js_sort cmp arr]> h
  | None => h
  end.

Definition sorted_memo {A : Type} (cmp : A -> A -> Q) (h : heap A) (rows : nat)
    : option (heap A * nat) :=
  '(h1, copy) ← spread h rows; Some (sort_in_place cmp h1 copy, copy).

(** ** [fetchData] (page.tsx, lines 39-52) *)

Record page_state : Type := mkPageState {
  rows : list GameView;
  loading : bool;
  err : option string
}.

(** A thrown value; [e?.message] may be missing. *)
Record js_error : Type := mkJsError { message : option string }.

(** Completion of a statement: normal, or an exception being thrown. *)
Inductive completion (A : Type) : Type :=
| Normal : A -> completion A
| Throw : js_error -> completion A.
Arguments Normal {A} _.
Arguments Throw {A} _.

(** What [await res.json()] gives. *)
Inductive json_result : Type :=
| JsonOk : list GameView -> json_result
| JsonErr : js_error -> json_result.

(** What [await fetch(...)] gives: a rejection (network-level failure) or a
    response with its status and body. *)
Inductive fetch_result : Type :=
| NetworkFailure : js_error -> fetch_result
| Response : Z -> json_result -> fetch_result.

(** [res.ok]: the status is in the range 200-299. *)
Definition res_ok (status : Z) : bool := (200 <=? status)%Z && (status <=? 299)%Z.

(** The [try] block. *)
Definition fetchData_try (r : fetch_result) : completion (list GameView) :=
  match r with
  | NetworkFailure e => Throw e
  | Response status body =>
      if negb (res_ok status)
      then Throw (mkJsError (Some ("HTTP " ++ pretty status)%string))
      else match body with
           | JsonOk data => Normal data
           | JsonErr e => Throw e
           end
  end.

Definition fetchData (st : page_state) (r : fetch_result) : completion page_state :=
  (* setLoading(true); setErr(null) *)
  let st1 := mkPageState (rows st) true None in
  (* try { ... setRows(data) } catch (e) { setErr(e?.message ?? "Failed to load") } *)
  let st2 : completion page_state :=
    match fetchData_try r with
    | Normal data => Normal (mkPageState data (loading st1) (err st1))
    | Throw e =>
        Normal (mkPageState (rows st1) (loading st1)
                  (Some (default "Failed to load" (message e))%string))
    end in
  (* finally { setLoading(false) } *)
  match st2 with
  | Normal s => Normal (mkPageState (rows s) false (err s))
  | Throw e => Throw e
  end.

(** ** [toggleSort] (page.tsx lines 71-77, history/page.tsx lines 77-83) *)

Record sort_state (K : Type) : Type := mkSortState {
  sortKey : K;
  sortDir : sort_dir
}.
Arguments mkSortState {K} _ _.
Arguments sortKey {K} _.
Arguments sortDir {K} _.

(** [(d) => (d === "asc" ? "desc" : "asc")] *)
Definition flip_dir (d : sort_dir) : sort_dir :=
  match d with asc => desc | desc => asc end.

Definition toggleSort {K : Type} `{EqDecision K} (s : sort_state K) (key : K)
    : sort_state K :=
  if decide (sortKey s = key) then mkSortState (sortKey s) (flip_dir (sortDir s))
  else mkSortState key desc.

(** The view rendered by the predictions page for a sort state. *)
Definition game_view (rows : list GameView) (s : sort_state game_key)
    : list GameView :=
  game_sorted rows (sortKey s) (sortDir s).

(** ** [fmtNum] and [Number.prototype.toFixed] *)

Fixpoint zeros (n : nat) : string :=
  match n with O => EmptyString | S n' => String "0" (zeros n') end.

Section ToFixed.
(** [ToString] of a number [>= 1e21] (exponent notation); [toFixed] only
    uses it for such numbers. *)
Variable number_to_string : Q -> string.

(** [x.toFixed(f)] for a finite [x] (ECMA-262, Number.prototype.toFixed);
    [None] is the [RangeError] thrown for [f > 100]. *)
Definition toFixed (x : Q) (f : nat) : option string :=
  if (100 <? f)%nat then None else
  let s := if Qltb x 0 then "-"%string else EmptyString in
  let x := if Qltb x 0 then - x else x in
  if Qle_bool (inject_Z (10 ^ 21)) x then Some (s ++ number_to_string x)%string
  else
    (* the integer n for which n / 10^f - x is closest to zero, the larger
       one on a tie *)
    let n := Qfloor (x * inject_Z (10 ^ Z.of_nat f) + (1 # 2)) in
    let m := if (n =? 0)%Z then "0"%string else pretty n in
    let m :=
      if (f =? 0)%nat then m
      else
        let k := String.length m in
        let '(m, k) :=
          if (k <=? f)%nat then ((zeros (f + 1 - k) ++ m)%string, (f + 1)%nat)
          else (m, k) in
        (substring 0 (k - f) m ++ "." ++ substring (k - f) f m)%string in
    Some (s ++ m)%string.

(** [fmtNum = (x, d = 2) => x === null || x === undefined ? "—" : x.toFixed(d)] *)
Definition fmtNum (x : option Q) (d : nat) : option string :=
  match x with
  | None => Some "—"%string
  | Some x => toFixed x d
  end.

End ToFixed.

(** ** Concrete rows *)

(** The three rows of the end-to-end scenario of the spec. *)
Definition scenario_row1 : GameView := margin_row "g1" 3 0.55.
Definition scenario_row2 : GameView := margin_row "g2" 3 0.80.
Definition scenario_row3 : GameView := margin_row "g3" 7 0.60.

(** A history row with only a margin and a pick probability that matter. *)
Definition history_margin_row (id : Q) (m p : Q) : HistoryRow :=
  mkHistoryRow id 2025 8 "g" "2025-10-01T00:00:00" "H" "A" m 0.5 "H" p.

(** A row with a margin, and one whose margin is absent. *)
Definition c1_defined_row : GameView := margin_row "g1" 3 0.5.
Definition c1_missing_row : GameView :=
  mkGameView (GIdStr "g2") None "" "" None None None None None None None None
    None None "" (Some 0.9).

(** A row with a defined [net_epa_per_play] and one where it is [null]. *)
Definition c6_defined_row : GameView :=
  mkGameView (GIdStr "g1") None "" "" None None None None None None (Some (-0.2))
    None (Some 1) None "" (Some 0.6).
Definition c6_null_row : GameView :=
  mkGameView (GIdStr "g2") None "" "" None None None None None None None
    None (Some 2) None "" (Some 0.7).

(** ** The table body of page.tsx (lines 137-158) *)

(** A [<tr>] of the body: a [RowMessage] or a game row. *)
Inductive body_row : Type :=
| RowMessage : string -> bool -> body_row
| GameRow : GameView -> body_row.

(** Truthiness of [err : string | null]: [null] and [""] are falsy. *)
Definition truthy_str (o : option string) : bool :=
  match o with Some s => negb (String.eqb s "") | None => false end.

Definition page_body (st : page_state) (sorted : list GameView) : list body_row :=
  (if loading st then [RowMessage "Loading…" false] else []) ++
  (if negb (loading st) && truthy_str (err st)
   then [RowMessage ("Error: " ++ default "" (err st))%string true] else []) ++
  (if negb (loading st) && negb (truthy_str (err st)) && (length sorted =? 0)%nat
   then [RowMessage "No games found." false] else []) ++
  (if negb (loading st) && negb (truthy_str (err st)) then map GameRow sorted else []).

(** The body as rendered from the page state and the sort state. *)
Definition home_body (st : page_state) (s : sort_state game_key) : list body_row :=
  page_body st (game_view (rows st) s).

(** The table body of the earlier predictions page (part_000, lines 131-159):
    the rows are always mapped, then the two messages; the error is shown
    in a banner above the table instead. *)
Definition part0_body (st : page_state) (sorted : list GameView) : list body_row :=
  map GameRow sorted ++
  (if negb (loading st) && (length sorted =? 0)%nat
   then [RowMessage "No games found." false] else []) ++
  (if loading st then [RowMessage "Loading…" false] else []).

Definition part0_banner (st : page_state) : option string :=
  if truthy_str (err st) then err st else None.

(** ** The sort arrow of [Th] *)

(** [{active && <span>{dir === "asc" ? "▲" : "▼"}</span>}] *)
Definition th_arrow (active : bool) (dir : sort_dir) : option string :=
  if active then Some (match dir with asc => "▲" | desc => "▼" end)%string else None.

(** The arrow of the header of [k]: [active={sortKey === k} dir={sortDir}]. *)
Definition header_arrow {K : Type} `{EqDecision K} (s : sort_state K) (k : K)
    : option string :=
  th_arrow (bool_decide (sortKey s = k)) (sortDir s).

(** ** [fetchHistory] and [onSnapshot] (history/page.tsx, lines 34-58) *)

Record history_state : Type := mkHistoryState {
  h_rows : list HistoryRow;
  h_loading : bool;
  h_err : option string
}.

Inductive history_json : Type :=
| HJsonOk : list HistoryRow -> history_json
| HJsonErr : js_error -> history_json.

Inductive history_fetch_result : Type :=
| HNetworkFailure : js_error -> history_fetch_result
| HResponse : Z -> history_json -> history_fetch_result.

Definition fetchHistory_try (r : history_fetch_result) : completion (list HistoryRow) :=
  match r with
  | HNetworkFailure e => Throw e
  | HResponse status body =>
      if negb (res_ok status)
      then Throw (mkJsError (Some ("HTTP " ++ pretty status)%string))
      else match body with
           | HJsonOk data => Normal data
           | HJsonErr e => Throw e
           end
  end.

Definition fetchHistory (st : history_state) (r : history_fetch_result)
    : completion history_state :=
  let st1 := mkHistoryState (h_rows st) true None in
  let st2 : completion history_state :=
    match fetchHistory_try r with
    | Normal data => Normal (mkHistoryState data (h_loading st1) (h_err st1))
    | Throw e =>
        Normal (mkHistoryState (h_rows st1) (h_loading st1)
                  (Some (default "Failed to load" (message e))%string))
    end in
  match st2 with
  | Normal s => Normal (mkHistoryState (h_rows s) false (h_err s))
  | Throw e => Throw e
  end.

(** What the [POST /predict/snapshot] gives; its body is not read. *)
Inductive post_result : Type :=
| PostFailure : js_error -> post_result
| PostResponse : Z -> post_result.

(** [onSnapshot]: the history state after it and the [alert]s it shows.
    [r] is what the [fetch] of [fetchHistory] gives, when it is reached. *)
Definition onSnapshot (st : history_state) (post : post_result)
    (r : history_fetch_result) : history_state * list string :=
  let body : completion history_state :=
    match post with
    | PostFailure e => Throw e
    | PostResponse status =>
        if negb (res_ok status)
        then Throw (mkJsError
                      (Some ("Snapshot failed (HTTP " ++ pretty status ++ ")")%string))
        else fetchHistory st r
    end in
  match body with
  | Normal st' => (st', [])
  | Throw e => (st, [default "Snapshot failed" (message e)]%string)
  end.

(** The [onSnapshot] of the copy of the history page at the end of
    page.tsx (lines 274-284), which alerts after the refresh. *)
Definition onSnapshot_v0 (st : history_state) (post : post_result)
    (r : history_fetch_result) : history_state * list string :=
  let body : completion history_state :=
    match post with
    | PostFailure e => Throw e
    | PostResponse status =>
        if negb (res_ok status)
        then Throw (mkJsError
                      (Some ("Snapshot failed (HTTP " ++ pretty status ++ ")")%string))
        else fetchHistory st r
    end in
  match body with
  | Normal st' => (st', ["Snapshot saved & history refreshed."]%string)
  | Throw e => (st, [default "Snapshot failed" (message e)]%string)
  end.

(** ** Decimal digits *)

(** A character in ['0'..'9']. *)
Definition is_digit (c : ascii) : bool :=
  (48 <=? nat_of_ascii c)%nat && (nat_of_ascii c <=? 57)%nat.

(** Every character of the string is a decimal digit. *)
Fixpoint all_digits (s : string) : bool :=
  match s with
  | EmptyString => true
  | String c s' => is_digit c && all_digits s'
  end.

(** ** [parseInt] of the season, week and limit inputs

    [onChange={(e) => setSeason(parseInt(e.target.value || "0"))}]
    (page.tsx lines 102 and 111, history/page.tsx lines 101-109).
    [parseInt] follows ECMA-262 (global function parseInt, no radix) on an
    ASCII string; [None] is [NaN].  The result is the mathematical integer
    [sign * mathInt]; the Number it denotes is exact for magnitudes up to
    [2^53], and [-0] is identified with [0]. *)

(** The ASCII characters of [StrWhiteSpaceChar] and [LineTerminator]. *)
Definition is_space_char (c : ascii) : bool :=
  let n := nat_of_ascii c in ((9 <=? n) && (n <=? 13)) || (n =? 32).

Fixpoint trim_start (s : string) : string :=
  match s with
  | String c s' => if is_space_char c then trim_start s' else s
  | EmptyString => EmptyString
  end.

(** The value of a character as a digit of radix up to 36. *)
Definition digit_value (c : ascii) : option Z :=
  let n := Z.of_nat (nat_of_ascii c) in
  if (48 <=? n)%Z && (n <=? 57)%Z then Some (n - 48)%Z
  else if (97 <=? n)%Z && (n <=? 122)%Z then Some (n - 87)%Z
  else if (65 <=? n)%Z && (n <=? 90)%Z then Some (n - 55)%Z
  else None.

(** The values of the longest prefix of radix-[R] digits. *)
Fixpoint digits_prefix (R : Z) (s : string) : list Z :=
  match s with
  | String c s' =>
      match digit_value c with
      | Some d => if (d <? R)%Z then d :: digits_prefix R s' else []
      | None => []
      end
  | EmptyString => []
  end.

Definition digits_value (R : Z) (ds : list Z) : Z :=
  fold_left (fun a d => a * R + d)%Z ds 0%Z.

(** Steps 4-5: the sign. *)
Definition parse_sign (str : string) : Z * string :=
  match str with
  | String c str' =>
      if (c =? "-")%char then ((-1)%Z, str')
      else if (c =? "+")%char then (1%Z, str')
      else (1%Z, str)
  | EmptyString => (1%Z, str)
  end.

(** Steps 6-10 with no radix: a ["0x"] or ["0X"] prefix selects radix 16. *)
Definition parse_radix (str : string) : Z * string :=
  match str with
  | String c0 (String c str') =>
      if (c0 =? "0")%char && ((c =? "x")%char || (c =? "X")%char)
      then (16%Z, str') else (10%Z, str)
  | _ => (10%Z, str)
  end.

Definition parseInt (input : string) : option Z :=
  let '(sign, str) := parse_sign (trim_start input) in
  let '(R, str) := parse_radix str in
  match digits_prefix R str with
  | [] => None
  | ds => Some (sign * digits_value R ds)%Z
  end.

(** [parseInt(e.target.value || "0")]: the empty string is falsy. *)
Definition parse_input (v : string) : option Z :=
  parseInt (if String.eqb v "" then "0"%string else v).

(** ** The React key of a history row (history/page.tsx, line 142) *)

Section RowKey.
(** [ToString] of a number that is not an integer below [1e21]. *)
Variable number_to_string : Q -> string.

(** [ToString(x)] (ECMA-262, Number::toString): an integer [x] with
    [|x| < 1e21] is written in decimal, with a ["-"] when negative. *)
Definition js_number_to_string (x : Q) : string :=
  if Qeq_bool x (inject_Z (Qfloor x)) && Qltb (Qabs x) (inject_Z (10 ^ 21))
  then pretty (Qfloor x)
  else number_to_string x.

(** [key={r.id + "-" + r.game_id}] *)
Definition history_row_key (r : HistoryRow) : string :=
  (js_number_to_string (h_id r) ++ "-" ++ h_game_id r)%string.
End RowKey.

(** * Proofs *)

(** ** Facts about the sort model *)

Lemma Qle_bool_false (x y : Q) : Qle_bool x y = false -> y < x.
Proof.
  intros H. apply Qnot_le_lt. intros Hle. apply Qle_bool_iff in Hle. congruence.
Qed.

Ltac qbool :=
  repeat match goal with
  | H : Qle_bool _ _ = true |- _ => apply Qle_bool_iff in H
  | H : Qle_bool _ _ = false |- _ => apply Qle_bool_false in H
  end.

Ltac split_qle :=
  repeat match goal with
  | |- context [Qle_bool ?x ?y] =>
      let E := fresh "E" in destruct (Qle_bool x y) eqn:E; cbn [negb] in *
  | H : context [Qle_bool ?x ?y] |- _ =>
      lazymatch type of H with
      | Qle_bool _ _ = _ => fail
      | _ => let E := fresh "E" in destruct (Qle_bool x y) eqn:E; cbn [negb] in *
      end
  end; qbool.

Section JsSortFacts.
Context {A : Type} (cmp : A -> A -> Q).

Lemma js_insert_perm (x : A) (l : list A) :
  Permutation (js_insert cmp x l) (x :: l).
Proof.
  induction l as [|y l IH]; simpl; [reflexivity|].
  destruct (Qle_bool (cmp x y) 0); [reflexivity|].
  rewrite IH. apply perm_swap.
Qed.

Lemma js_sort_perm (l : list A) : Permutation (js_sort cmp l) l.
Proof.
  induction l as [|x l IH]; simpl; [reflexivity|].
  rewrite js_insert_perm, IH. reflexivity.
Qed.

(** A consistent comparator: its sign is antisymmetric and it is
    transitive, i.e. it is a total preorder. *)
Hypothesis cmp_total : forall a b, ~ cmp_le cmp a b -> cmp_le cmp b a.
Hypothesis cmp_trans : forall a b c, cmp_le cmp a b -> cmp_le cmp b c -> cmp_le cmp a c.

Lemma js_insert_sorted (x : A) (l : list A) :
  StronglySorted (cmp_le cmp) l -> StronglySorted (cmp_le cmp) (js_insert cmp x l).
Proof.
  induction l as [|y l IH]; simpl; intros Hs.
  - repeat constructor.
  - apply StronglySorted_inv in Hs as [Hl Hy].
    destruct (Qle_bool (cmp x y) 0) eqn:E.
    + apply Qle_bool_iff in E. constructor; [constructor; auto|].
      constructor; [exact E|].
      eapply Forall_impl; [exact Hy|]. intros z Hz. eapply cmp_trans; eauto.
    + apply Qle_bool_false in E.
      assert (Hyx : cmp_le cmp y x).
      { apply cmp_total. unfold cmp_le. intros Hc. apply (Qlt_not_le _ _ E Hc). }
      constructor; [auto|].
      eapply Permutation_Forall; [symmetry; apply js_insert_perm|].
      constructor; auto.
Qed.

Lemma js_sort_sorted (l : list A) : StronglySorted (cmp_le cmp) (js_sort cmp l).
Proof.
  induction l as [|x l IH]; simpl; [constructor|].
  apply js_insert_sorted, IH.
Qed.

Lemma strongly_sorted_lookup (l : list A) (i j : nat) (a b : A) :
  StronglySorted (cmp_le cmp) l -> (i < j)%nat -> l !! i = Some a -> l !! j = Some b ->
  cmp_le cmp a b.
Proof.
  revert i j. induction l as [|x l IH]; intros i j Hs Hij Ha Hb; [done|].
  apply StronglySorted_inv in Hs as [Hl Hx].
  destruct i as [|i], j as [|j]; simpl in *; try lia.
  - injection Ha as <-. rewrite Forall_forall in Hx. apply Hx.
    apply list_elem_of_lookup. eauto.
  - apply (IH i j); auto; lia.
Qed.

(** If the comparator puts [b] strictly after [a] ([cmp b a > 0]), then
    in the sorted array every occurrence of [a] precedes every occurrence
    of [b]. *)
Lemma js_sort_before (l : list A) (i j : nat) (a b : A) :
  0 < cmp b a ->
  js_sort cmp l !! i = Some a -> js_sort cmp l !! j = Some b -> (i < j)%nat.
Proof.
  intros Hc Ha Hb.
  destruct (Nat.lt_trichotomy i j) as [Hlt|[->|Hgt]]; [exact Hlt| |].
  - rewrite Ha in Hb. injection Hb as ->.
    assert (Hr : cmp_le cmp b b).
    { destruct (Qlt_le_dec 0 (cmp b b)) as [h|h]; [|exact h].
      apply cmp_total. intros h'. exact (Qlt_not_le _ _ h h'). }
    exfalso. exact (Qlt_not_le _ _ Hc Hr).
  - exfalso. apply (Qlt_not_le _ _ Hc).
    exact (strongly_sorted_lookup _ j i b a (js_sort_sorted l) Hgt Hb Ha).
Qed.
End JsSortFacts.

(** ** The predictions-page comparator is consistent *)

Lemma game_cmp_total (k : game_key) (d : sort_dir) (a b : GameView) :
  ~ cmp_le (game_cmp k d) a b -> cmp_le (game_cmp k d) b a.
Proof.
  unfold cmp_le, game_cmp.
  destruct (game_get k a), (game_get k b); destruct d; cbn [or_neg_inf ext_lt];
  unfold Qltb; split_qle; intros; lra.
Qed.

Lemma game_cmp_trans (k : game_key) (d : sort_dir) (a b c : GameView) :
  cmp_le (game_cmp k d) a b -> cmp_le (game_cmp k d) b c ->
  cmp_le (game_cmp k d) a c.
Proof.
  unfold cmp_le, game_cmp.
  destruct (game_get k a), (game_get k b), (game_get k c); destruct d;
  cbn [or_neg_inf ext_lt]; unfold Qltb; split_qle; intros; lra.
Qed.

Lemma game_sorted_before (rows : list GameView) (k : game_key) (d : sort_dir)
    (i j : nat) (a b : GameView) :
  0 < game_cmp k d b a ->
  game_sorted rows k d !! i = Some a -> game_sorted rows k d !! j = Some b ->
  (i < j)%nat.
Proof.
  apply js_sort_before.
  - apply game_cmp_total.
  - apply game_cmp_trans.
Qed.

(** A record missing at the key is placed before a record defined at the key
    under [asc], after it under [desc]. *)
Lemma game_sorted_missing (rows : list GameView) (k : game_key) (d : sort_dir)
    (i j : nat) (a b : GameView) (q : Q) :
  game_get k a = None -> game_get k b = Some q ->
  game_sorted rows k d !! i = Some a -> game_sorted rows k d !! j = Some b ->
  match d with asc => (i < j)%nat | desc => (j < i)%nat end.
Proof.
  intros Ha Hb Hi Hj. destruct d.
  - eapply game_sorted_before; [|exact Hi|exact Hj].
    unfold game_cmp. rewrite Ha, Hb. reflexivity.
  - eapply game_sorted_before; [|exact Hj|exact Hi].
    unfold game_cmp. rewrite Ha, Hb. reflexivity.
Qed.

(** Records that are neither [<] nor [>] at the key are ordered by
    [pick_prob ?? 0], larger first, in both directions. *)
Lemma game_sorted_tiebreak (rows : list GameView) (k : game_key) (d : sort_dir)
    (i j : nat) (a b : GameView) :
  ext_lt (or_neg_inf (game_get k a)) (or_neg_inf (game_get k b)) = false ->
  ext_lt (or_neg_inf (game_get k b)) (or_neg_inf (game_get k a)) = false ->
  or_zero (pick_prob b) < or_zero (pick_prob a) ->
  game_sorted rows k d !! i = Some a -> game_sorted rows k d !! j = Some b ->
  (i < j)%nat.
Proof.
  intros H1 H2 Hp Hi Hj.
  eapply game_sorted_before; [|exact Hi|exact Hj].
  unfold game_cmp. rewrite H1, H2. lra.
Qed.

(** ** Stability of the sort model *)

Section Stability.
Context {A : Type} (cmp : A -> A -> Q) (P : A -> bool).

Lemma js_insert_filter_out (x : A) (l : list A) :
  P x = false -> List.filter P (js_insert cmp x l) = List.filter P l.
Proof.
  intros Hx. induction l as [|y l IH]; simpl.
  - rewrite Hx. reflexivity.
  - destruct (Qle_bool (cmp x y) 0); simpl.
    + rewrite Hx. reflexivity.
    + rewrite IH. reflexivity.
Qed.

Lemma js_insert_filter_in (x : A) (l : list A) :
  P x = true -> (forall y, y ∈ l -> P y = true -> cmp x y <= 0) ->
  List.filter P (js_insert cmp x l) = x :: List.filter P l.
Proof.
  intros Hx. induction l as [|y l IH]; simpl; intros Hle.
  - rewrite Hx. reflexivity.
  - destruct (Qle_bool (cmp x y) 0) eqn:E; simpl.
    + rewrite Hx. reflexivity.
    + apply Qle_bool_false in E.
      destruct (P y) eqn:Hy.
      * exfalso. apply (Qlt_not_le _ _ E), Hle; [apply list_elem_of_here|exact Hy].
      * rewrite IH; [reflexivity|].
        intros z Hz. apply Hle. apply list_elem_of_further. exact Hz.
Qed.

(** If the comparator returns [0] (or less) between any two records of
    the class [P], the sort keeps the class in input order. *)
Lemma js_sort_filter (l : list A) :
  (forall x y, P x = true -> P y = true -> cmp x y <= 0) ->
  List.filter P (js_sort cmp l) = List.filter P l.
Proof.
  intros HP. induction l as [|x l IH]; simpl; [reflexivity|].
  destruct (P x) eqn:Hx.
  - rewrite js_insert_filter_in by (intros; auto).
    rewrite IH. reflexivity.
  - rewrite js_insert_filter_out by exact Hx.
    exact IH.
Qed.
End Stability.

(** ** Lemmas about the history comparator *)

Lemma string_compare_refl (s : string) : String.compare s s = Eq.
Proof.
  pose proof (String.compare_antisym s s) as H.
  destruct (String.compare s s); simpl in H; congruence.
Qed.

Lemma hval_eqb_not_lt (x y v : hval) :
  hval_eqb x v = true -> hval_eqb y v = true -> hval_lt x y = false.
Proof.
  destruct x as [x|x], y as [y|y], v as [v|v]; simpl; try discriminate.
  - intros Hx Hy. apply Qeq_bool_iff in Hx, Hy. unfold Qltb.
    destruct (Qle_bool y x) eqn:E; [reflexivity|].
    apply Qle_bool_false in E. exfalso. rewrite Hx, Hy in E. exact (Qlt_irrefl _ E).
  - intros Hx Hy. apply String.eqb_eq in Hx, Hy. subst.
    rewrite string_compare_refl. reflexivity.
Qed.

(** Records with the same value at the key compare [0]: the history sort
    keeps them in input order. *)
Lemma history_sorted_stable (rows : list HistoryRow) (k : history_key)
    (d : sort_dir) (v : hval) :
  List.filter (fun r => hval_eqb (history_get k r) v) (history_sorted rows k d) =
  List.filter (fun r => hval_eqb (history_get k r) v) rows.
Proof.
  apply js_sort_filter. intros x y Hx Hy.
  unfold history_cmp.
  rewrite (hval_eqb_not_lt _ _ _ Hx Hy), (hval_eqb_not_lt _ _ _ Hy Hx).
  apply Qle_refl.
Qed.

(** ** Lemmas about [toFixed] *)

Lemma zeros_snoc (n : nat) : (zeros n ++ "0")%string = zeros (S n).
Proof.
  induction n as [|n IH]; [reflexivity|].
  change (String "0" (zeros n ++ "0") = String "0" (zeros (S n)))%string.
  f_equal. exact IH.
Qed.

Lemma substring_zeros (n : nat) : substring 0 n (zeros n) = zeros n.
Proof. induction n as [|n IH]; simpl; [reflexivity|]. f_equal. exact IH. Qed.

Lemma toFixed_zero (nts : Q -> string) (f : nat) :
  toFixed nts 0 f =
  if (100 <? f)%nat then None
  else Some (if (f =? 0)%nat then "0" else "0." ++ zeros f)%string.
Proof.
  unfold toFixed.
  destruct (100 <? f)%nat; [reflexivity|].
  assert (Hn : Qfloor (0 * inject_Z (10 ^ Z.of_nat f) + (1 # 2)) = 0%Z).
  { rewrite (Qfloor_comp _ (1 # 2)); [reflexivity|]. ring. }
  change (Qltb 0 0) with false. change (Qle_bool (inject_Z (10 ^ 21)) 0) with false.
  cbv iota zeta. rewrite Hn. change (0 =? 0)%Z with true. cbv iota.
  destruct f as [|f]; [reflexivity|].
  change (S f =? 0)%nat with false. change (String.length "0") with 1%nat. cbv iota.
  replace (1 <=? S f)%nat with true by (symmetry; apply Nat.leb_le; lia).
  replace (S f + 1 - 1)%nat with (S f) by lia.
  replace (S f + 1 - S f)%nat with 1%nat by lia.
  cbv iota. rewrite zeros_snoc. simpl. rewrite substring_zeros. reflexivity.
Qed.

(** ** [sorted_memo] only writes the fresh copy *)

Lemma sorted_memo_frame_gen {A : Type} (cmp : A -> A -> Q) (h : heap A)
    (r : nat) (arr : list A) :
  h !! r = Some arr ->
  sorted_memo cmp h r = Some (<[length h := js_sort cmp arr]> (h ++ [arr]), length h).
Proof.
  intros Hr. unfold sorted_memo, spread. rewrite Hr. simpl.
  unfold sort_in_place.
  rewrite (list_lookup_middle h [] arr (length h) eq_refl). reflexivity.
Qed.

(** * The claims *)

(** C1: on the predictions page a record whose value at the sort key is
    missing ([null] or absent) compares as [-Infinity]: in the sorted view it
    comes before every record with a defined value under ascending sort and
    after every such record under descending sort.  (The fields of
    [HistoryRow] are all required, so the history page has no missing
    values to place.) *)
Theorem sorted_missing_key_is_neg_infinity (rows : list GameView)
    (k : game_key) (d : sort_dir) (i j : nat) (a b : GameView) (q : Q) :
  game_get k a = None -> game_get k b = Some q ->
  game_sorted rows k d !! i = Some a -> game_sorted rows k d !! j = Some b ->
  match d with asc => (i < j)%nat | desc => (j < i)%nat end.
Proof. apply game_sorted_missing. Qed.


Lemma sorted_missing_key_is_neg_infinity_witness :
  game_get k_pred_margin (c1_missing_row) = None /\
  game_get k_pred_margin (c1_defined_row) = Some 3 /\
  game_sorted [c1_defined_row; c1_missing_row] k_pred_margin desc !! 1%nat = Some (c1_missing_row) /\
  game_sorted [c1_defined_row; c1_missing_row] k_pred_margin desc !! 0%nat = Some (c1_defined_row) /\
  (0 < 1)%nat.
Proof.
  refine (conj eq_refl (conj eq_refl (conj eq_refl (conj eq_refl _)))).
  exact (sorted_missing_key_is_neg_infinity [c1_defined_row; c1_missing_row] k_pred_margin desc 1 0
           (c1_missing_row) (c1_defined_row) 3
           eq_refl eq_refl eq_refl eq_refl).
Defined.

(** C2 (amended): on the predictions page, two records that are neither
    [<] nor [>] at the sort key are ordered by [pick_prob ?? 0], the larger
    first, whatever the direction; the history page has no tie-breaker, and
    records with the same value at the key keep their input order. *)
Theorem sorted_tie_break_pick_prob (rows : list GameView) (k : game_key)
    (d : sort_dir) (i j : nat) (a b : GameView) :
  ext_lt (or_neg_inf (game_get k a)) (or_neg_inf (game_get k b)) = false ->
  ext_lt (or_neg_inf (game_get k b)) (or_neg_inf (game_get k a)) = false ->
  or_zero (pick_prob b) < or_zero (pick_prob a) ->
  game_sorted rows k d !! i = Some a -> game_sorted rows k d !! j = Some b ->
  (i < j)%nat /\
  (forall (hrows : list HistoryRow) (hk : history_key) (hd : sort_dir) (v : hval),
     List.filter (fun r => hval_eqb (history_get hk r) v) (history_sorted hrows hk hd) =
     List.filter (fun r => hval_eqb (history_get hk r) v) hrows).
Proof.
  intros H1 H2 Hp Hi Hj. split.
  - exact (game_sorted_tiebreak rows k d i j a b H1 H2 Hp Hi Hj).
  - intros. apply history_sorted_stable.
Qed.

Lemma sorted_tie_break_pick_prob_witness :
  (0 < 1)%nat /\
  (forall (hrows : list HistoryRow) (hk : history_key) (hd : sort_dir) (v : hval),
     List.filter (fun r => hval_eqb (history_get hk r) v) (history_sorted hrows hk hd) =
     List.filter (fun r => hval_eqb (history_get hk r) v) hrows).
Proof.
  apply (sorted_tie_break_pick_prob [scenario_row1; scenario_row2] k_pred_margin asc
           0%nat 1%nat scenario_row2 scenario_row1); [reflexivity|reflexivity| |reflexivity|reflexivity].
  unfold scenario_row1, scenario_row2, margin_row. simpl. lra.
Defined.

(** C2 as stated fails on the history page: two history rows with the same
    margin and different pick probabilities keep their input order, the
    lower pick probability first, under descending sort. *)
Lemma history_no_tie_break_counterexample :
  ~ (forall (rows : list HistoryRow) (k : history_key) (d : sort_dir)
        (i j : nat) (a b : HistoryRow),
       hval_lt (history_get k a) (history_get k b) = false ->
       hval_lt (history_get k b) (history_get k a) = false ->
       h_pick_prob b < h_pick_prob a ->
       history_sorted rows k d !! i = Some a -> history_sorted rows k d !! j = Some b ->
       (i < j)%nat).
Proof.
  intros H.
  pose proof (H [history_margin_row 1 3 0.55; history_margin_row 2 3 0.80]
                hk_pred_margin desc 1%nat 0%nat
                (history_margin_row 2 3 0.80) (history_margin_row 1 3 0.55)
                eq_refl eq_refl) as Hc.
  assert (Hlt : h_pick_prob (history_margin_row 1 3 0.55) <
                h_pick_prob (history_margin_row 2 3 0.80)) by (simpl; lra).
  specialize (Hc Hlt eq_refl eq_refl). lia.
Qed.

(** C3: for every row list, key and direction, the sorted view of either
    page is a permutation of the fetched rows. *)
Theorem sorted_is_permutation (rows : list GameView) (k : game_key) (d : sort_dir)
    (hrows : list HistoryRow) (hk : history_key) (hd : sort_dir) :
  Permutation (game_sorted rows k d) rows /\
  Permutation (history_sorted hrows hk hd) hrows.
Proof. split; apply js_sort_perm. Qed.

(** C4: the [sorted] memo copies the fetched array and sorts the copy: every
    array that existed before, the fetched [rows] among them, is unchanged,
    and the fresh copy holds the sorted records. *)
Theorem sorted_memo_preserves_rows {A : Type} (cmp : A -> A -> Q) (h : heap A)
    (r : nat) (arr : list A) :
  h !! r = Some arr ->
  exists h' copy,
    sorted_memo cmp h r = Some (h', copy) /\
    copy <> r /\
    (forall r', (r' < length h)%nat -> h' !! r' = h !! r') /\
    h' !! r = Some arr /\
    h' !! copy = Some (js_sort cmp arr).
Proof.
  intros Hr. pose proof (lookup_lt_Some _ _ _ Hr) as Hlt.
  exists (<[length h := js_sort cmp arr]> (h ++ [arr])), (length h).
  split; [exact (sorted_memo_frame_gen cmp h r arr Hr)|].
  assert (Hold : forall r', (r' < length h)%nat ->
            <[length h := js_sort cmp arr]> (h ++ [arr]) !! r' = h !! r').
  { intros r' Hr'. rewrite list_lookup_insert_ne by lia.
    apply lookup_app_l. exact Hr'. }
  split; [lia|]. split; [exact Hold|]. split.
  - rewrite Hold by exact Hlt. exact Hr.
  - apply list_lookup_insert_eq. rewrite length_app. simpl. lia.
Qed.

Lemma sorted_memo_preserves_rows_witness :
  exists h' copy,
    sorted_memo (game_cmp k_pred_margin desc) [[scenario_row1; scenario_row3]] 0
      = Some (h', copy) /\
    copy <> 0%nat /\
    (forall r', (r' < 1)%nat -> h' !! r' = [[scenario_row1; scenario_row3]] !! r') /\
    h' !! 0%nat = Some [scenario_row1; scenario_row3] /\
    h' !! copy = Some (js_sort (game_cmp k_pred_margin desc) [scenario_row1; scenario_row3]).
Proof.
  exact (sorted_memo_preserves_rows (game_cmp k_pred_margin desc)
           [[scenario_row1; scenario_row3]] 0 [scenario_row1; scenario_row3] eq_refl).
Defined.

(** C5: the end-to-end scenario of the spec: sorting the three rows by
    [pred_margin] descending gives the margin-7 row, then the margin-3 row
    with pick probability 0.80, then the one with 0.55. *)
Theorem scenario_pred_margin_desc :
  game_sorted [scenario_row1; scenario_row2; scenario_row3] k_pred_margin desc =
  [scenario_row3; scenario_row2; scenario_row1].
Proof. vm_compute. reflexivity. Qed.

(** C6: a row whose [net_epa_per_play] is [null] comes, in the view sorted
    ascending by that key, before every row with a defined value there. *)
Theorem null_net_epa_first_ascending (rows : list GameView) (i j : nat)
    (a b : GameView) (q : Q) :
  net_epa_per_play a = None -> net_epa_per_play b = Some q ->
  game_sorted rows k_net_epa_per_play asc !! i = Some a ->
  game_sorted rows k_net_epa_per_play asc !! j = Some b ->
  (i < j)%nat.
Proof.
  intros Ha Hb Hi Hj.
  exact (game_sorted_missing rows k_net_epa_per_play asc i j a b q Ha Hb Hi Hj).
Qed.

Lemma null_net_epa_first_ascending_witness :
  net_epa_per_play c6_null_row = None /\ net_epa_per_play c6_defined_row = Some (-0.2) /\
  game_sorted [c6_defined_row; c6_null_row] k_net_epa_per_play asc !! 0%nat = Some c6_null_row /\
  game_sorted [c6_defined_row; c6_null_row] k_net_epa_per_play asc !! 1%nat = Some c6_defined_row /\
  (0 < 1)%nat.
Proof.
  refine (conj eq_refl (conj eq_refl (conj eq_refl (conj eq_refl _)))).
  exact (null_net_epa_first_ascending [c6_defined_row; c6_null_row] 0 1
           c6_null_row c6_defined_row (-0.2) eq_refl eq_refl eq_refl eq_refl).
Defined.

(** C7: when the predictions endpoint answers with a non-2xx status [N],
    [fetchData] completes normally (nothing is rethrown), stores the error
    string ["HTTP N"], keeps the row list it had and clears the loading flag;
    when [fetch] itself rejects, the stored error is the rejection's
    [message], or ["Failed to load"] when it has none. *)
Theorem fetchData_http_error (st : page_state) (N : Z) (body : json_result) :
  (N < 200 \/ 299 < N)%Z ->
  fetchData st (Response N body) =
    Normal (mkPageState (rows st) false (Some ("HTTP " ++ pretty N)%string)) /\
  (forall e : js_error,
     fetchData st (NetworkFailure e) =
       Normal (mkPageState (rows st) false
                 (Some (default "Failed to load" (message e))%string))).
Proof.
  intros HN. split; [|reflexivity].
  unfold fetchData, fetchData_try, res_ok.
  replace ((200 <=? N)%Z && (N <=? 299)%Z) with false; [reflexivity|].
  symmetry. apply andb_false_iff.
  destruct HN as [HN|HN]; [left|right]; apply Z.leb_gt; lia.
Qed.

Lemma fetchData_http_error_witness :
  (500 < 200 \/ 299 < 500)%Z /\
  fetchData (mkPageState [] true None) (Response 500 (JsonOk [scenario_row1])) =
    Normal (mkPageState [] false (Some "HTTP 500"%string)) /\
  fetchData (mkPageState [] true None) (NetworkFailure (mkJsError None)) =
    Normal (mkPageState [] false (Some "Failed to load"%string)).
Proof.
  assert (H : (500 < 200 \/ 299 < 500)%Z) by lia.
  destruct (fetchData_http_error (mkPageState [] true None) 500
              (JsonOk [scenario_row1]) H) as [H1 H2].
  split; [exact H|]. split; [exact H1|exact (H2 (mkJsError None))].
Defined.

(** C8: [toggleSort] on the active key flips the direction; on another key
    it selects that key, descending; toggling the active key twice restores
    the sort state, hence the same sorted view. *)
Theorem toggleSort_spec {K : Type} `{EqDecision K} (s : sort_state K) (key : K) :
  key <> sortKey s ->
  toggleSort s key = mkSortState key desc /\
  toggleSort s (sortKey s) = mkSortState (sortKey s) (flip_dir (sortDir s)) /\
  toggleSort (toggleSort s (sortKey s)) (sortKey s) = s /\
  (forall (g : sort_state game_key) (rows : list GameView),
     game_view rows (toggleSort (toggleSort g (sortKey g)) (sortKey g)) =
     game_view rows g).
Proof.
  assert (Htwice : forall {K' : Type} `{EqDecision K'} (t : sort_state K'),
             toggleSort (toggleSort t (sortKey t)) (sortKey t) = t).
  { intros K' ? [k d]. unfold toggleSort. simpl.
    destruct (decide (k = k)) as [_|C]; [|congruence]. simpl.
    destruct (decide (k = k)) as [_|C]; [|congruence].
    destruct d; reflexivity. }
  intros Hne. split; [|split; [|split]].
  - unfold toggleSort. rewrite decide_False by congruence. reflexivity.
  - unfold toggleSort. rewrite decide_True by reflexivity. reflexivity.
  - apply Htwice.
  - intros g rows. rewrite Htwice. reflexivity.
Qed.

Lemma toggleSort_spec_witness :
  k_pred_margin <> k_pick_prob /\
  toggleSort (mkSortState k_pick_prob desc) k_pred_margin = mkSortState k_pred_margin desc.
Proof.
  assert (H : k_pred_margin <> k_pick_prob) by discriminate.
  split; [exact H|].
  exact (proj1 (toggleSort_spec (mkSortState k_pick_prob desc) k_pred_margin H)).
Defined.

(** C9: [fmtNum] renders a missing value ([null] or [undefined]) as the
    placeholder ["—"], which is neither ["0"] nor the rendering of [0] with
    any number of decimals, and renders a present number [x] as
    [x.toFixed(d)]. *)
Theorem fmtNum_missing_placeholder (nts : Q -> string) (d d' : nat) (x : Q) :
  fmtNum nts None d = Some "—"%string /\
  fmtNum nts (Some x) d = toFixed nts x d /\
  fmtNum nts None d <> fmtNum nts (Some 0) d' /\
  fmtNum nts None d <> Some "0"%string.
Proof.
  split; [reflexivity|]. split; [reflexivity|]. split; [|discriminate].
  simpl fmtNum. rewrite toFixed_zero.
  destruct (100 <? d')%nat; [discriminate|].
  destruct (d' =? 0)%nat; discriminate.
Qed.

(** C10: on the predictions page the [pick_prob] tie-break is the same in
    both directions: records that are neither [<] nor [>] at the key are
    ordered by pick probability, larger first, under ascending and under
    descending sort; so the descending view is in general not the reverse
    of the ascending one. *)
Theorem tie_break_not_reversed (rows : list GameView) (k : game_key)
    (i i' j j' : nat) (a b : GameView) :
  ext_lt (or_neg_inf (game_get k a)) (or_neg_inf (game_get k b)) = false ->
  ext_lt (or_neg_inf (game_get k b)) (or_neg_inf (game_get k a)) = false ->
  or_zero (pick_prob b) < or_zero (pick_prob a) ->
  game_sorted rows k asc !! i = Some a -> game_sorted rows k asc !! j = Some b ->
  game_sorted rows k desc !! i' = Some a -> game_sorted rows k desc !! j' = Some b ->
  (i < j)%nat /\ (i' < j')%nat /\
  game_sorted [scenario_row1; scenario_row2] k_pred_margin desc <>
  rev (game_sorted [scenario_row1; scenario_row2] k_pred_margin asc).
Proof.
  intros H1 H2 Hp Hi Hj Hi' Hj'. split; [|split].
  - exact (game_sorted_tiebreak rows k asc i j a b H1 H2 Hp Hi Hj).
  - exact (game_sorted_tiebreak rows k desc i' j' a b H1 H2 Hp Hi' Hj').
  - vm_compute. discriminate.
Qed.

Lemma tie_break_not_reversed_witness :
  game_sorted [scenario_row1; scenario_row2] k_pred_margin asc =
    [scenario_row2; scenario_row1] /\
  game_sorted [scenario_row1; scenario_row2] k_pred_margin desc =
    [scenario_row2; scenario_row1] /\
  (0 < 1)%nat.
Proof.
  split; [reflexivity|]. split; [reflexivity|].
  apply (tie_break_not_reversed [scenario_row1; scenario_row2] k_pred_margin
           0 0 1 1 scenario_row2 scenario_row1);
    reflexivity.
Defined.

(** * Further properties of the pages *)

(** ** Loading data *)

Lemma res_ok_false (N : Z) : (N < 200 \/ 299 < N)%Z -> res_ok N = false.
Proof.
  intros HN. unfold res_ok. apply andb_false_iff.
  destruct HN as [HN|HN]; [left|right]; apply Z.leb_gt; lia.
Qed.

Lemma res_ok_true (N : Z) : (200 <= N <= 299)%Z -> res_ok N = true.
Proof.
  intros HN. unfold res_ok. apply andb_true_iff. split; apply Z.leb_le; lia.
Qed.

Lemma fetchHistory_normal (st : history_state) (r : history_fetch_result) :
  exists st', fetchHistory st r = Normal st' /\ h_loading st' = false.
Proof.
  unfold fetchHistory. destruct (fetchHistory_try r); eexists; split; reflexivity.
Qed.

(** A 2xx response whose body parses replaces the rows with the data, clears
    any earlier error and ends the loading state. *)
Theorem fetchData_success (st : page_state) (N : Z) (data : list GameView) :
  (200 <= N <= 299)%Z ->
  fetchData st (Response N (JsonOk data)) = Normal (mkPageState data false None).
Proof.
  intros HN. unfold fetchData, fetchData_try. rewrite res_ok_true by exact HN.
  reflexivity.
Qed.

Lemma fetchData_success_witness :
  (200 <= 200 <= 299)%Z /\
  fetchData (mkPageState [] false (Some "HTTP 500"%string)) (Response 200 (JsonOk [scenario_row1]))
    = Normal (mkPageState [scenario_row1] false None).
Proof.
  assert (H : (200 <= 200 <= 299)%Z) by lia.
  split; [exact H|]. exact (fetchData_success _ 200 [scenario_row1] H).
Defined.

(** Every load ends normally with the loading flag cleared, and either
    replaces the rows with what the [try] block produced and leaves no error,
    or keeps the rows and stores an error. *)
Theorem fetchData_outcome (st : page_state) (r : fetch_result) :
  exists st', fetchData st r = Normal st' /\ loading st' = false /\
    ((err st' = None /\ fetchData_try r = Normal (rows st')) \/
     (rows st' = rows st /\ err st' <> None)).
Proof.
  unfold fetchData. destruct (fetchData_try r) as [data|e] eqn:E;
    eexists; (split; [reflexivity|]); simpl; (split; [reflexivity|]).
  - left. split; reflexivity.
  - right. split; [reflexivity|]. discriminate.
Qed.

(** [fetchHistory] fails like [fetchData]: a non-2xx status [N] stores
    ["HTTP N"], a rejected [fetch] its message or ["Failed to load"]; the
    rows are kept, the loading flag is cleared and nothing is rethrown. *)
Theorem fetchHistory_error (st : history_state) (N : Z) (body : history_json) :
  (N < 200 \/ 299 < N)%Z ->
  fetchHistory st (HResponse N body) =
    Normal (mkHistoryState (h_rows st) false (Some ("HTTP " ++ pretty N)%string)) /\
  (forall e : js_error,
     fetchHistory st (HNetworkFailure e) =
       Normal (mkHistoryState (h_rows st) false
                 (Some (default "Failed to load" (message e))%string))).
Proof.
  intros HN. split; [|reflexivity].
  unfold fetchHistory, fetchHistory_try. rewrite res_ok_false by exact HN.
  reflexivity.
Qed.

Lemma fetchHistory_error_witness :
  (404 < 200 \/ 299 < 404)%Z /\
  fetchHistory (mkHistoryState [] true None) (HResponse 404 (HJsonOk [])) =
    Normal (mkHistoryState [] false (Some "HTTP 404"%string)).
Proof.
  assert (H : (404 < 200 \/ 299 < 404)%Z) by lia.
  split; [exact H|]. exact (proj1 (fetchHistory_error _ 404 (HJsonOk []) H)).
Defined.

(** ** Saving a snapshot *)

(** When the snapshot POST fails (non-2xx status [N], or a rejected
    [fetch]), [onSnapshot] alerts ["Snapshot failed (HTTP N)"] (resp. the
    error's message or ["Snapshot failed"]) and does not reload the history:
    the history state is unchanged. *)
Theorem onSnapshot_post_failure (st : history_state) (N : Z)
    (r : history_fetch_result) :
  (N < 200 \/ 299 < N)%Z ->
  onSnapshot st (PostResponse N) r =
    (st, [("Snapshot failed (HTTP " ++ pretty N ++ ")")%string]) /\
  (forall e : js_error,
     onSnapshot st (PostFailure e) r =
       (st, [default "Snapshot failed" (message e)]%string)).
Proof.
  intros HN. split; [|reflexivity].
  unfold onSnapshot. rewrite res_ok_false by exact HN. reflexivity.
Qed.

Lemma onSnapshot_post_failure_witness :
  (500 < 200 \/ 299 < 500)%Z /\
  onSnapshot (mkHistoryState [] false None) (PostResponse 500) (HResponse 200 (HJsonOk [])) =
    (mkHistoryState [] false None, ["Snapshot failed (HTTP 500)"%string]).
Proof.
  assert (H : (500 < 200 \/ 299 < 500)%Z) by lia.
  split; [exact H|].
  exact (proj1 (onSnapshot_post_failure _ 500 (HResponse 200 (HJsonOk [])) H)).
Defined.

(** When the snapshot POST succeeds, [onSnapshot] reloads the history and
    shows no alert, whatever the reload gives: a failed reload only sets the
    inline error, since [fetchHistory] never rethrows. *)
Theorem onSnapshot_post_ok (st : history_state) (N : Z) (r : history_fetch_result) :
  (200 <= N <= 299)%Z ->
  exists st', fetchHistory st r = Normal st' /\
    onSnapshot st (PostResponse N) r = (st', []).
Proof.
  intros HN. destruct (fetchHistory_normal st r) as [st' [Hf _]].
  exists st'. split; [exact Hf|].
  unfold onSnapshot. rewrite res_ok_true by exact HN. rewrite Hf. reflexivity.
Qed.

Lemma onSnapshot_post_ok_witness :
  (200 <= 201 <= 299)%Z /\
  onSnapshot (mkHistoryState [] false None) (PostResponse 201) (HResponse 500 (HJsonOk []))
    = (mkHistoryState [] false (Some "HTTP 500"%string), []).
Proof.
  assert (H : (200 <= 201 <= 299)%Z) by lia.
  split; [exact H|].
  destruct (onSnapshot_post_ok (mkHistoryState [] false None) 201
              (HResponse 500 (HJsonOk [])) H) as [st' [Hf Ho]].
  rewrite Ho. vm_compute in Hf. injection Hf as <-. reflexivity.
Defined.

(** In the copy of the history page in page.tsx, a successful snapshot POST
    always ends with the alert ["Snapshot saved & history refreshed."], also
    when the reload of the history that follows fails. *)
Theorem onSnapshot_v0_post_ok (st : history_state) (N : Z) (r : history_fetch_result) :
  (200 <= N <= 299)%Z ->
  exists st', fetchHistory st r = Normal st' /\
    onSnapshot_v0 st (PostResponse N) r =
      (st', ["Snapshot saved & history refreshed."%string]).
Proof.
  intros HN. destruct (fetchHistory_normal st r) as [st' [Hf _]].
  exists st'. split; [exact Hf|].
  unfold onSnapshot_v0. rewrite res_ok_true by exact HN. rewrite Hf. reflexivity.
Qed.

Lemma onSnapshot_v0_post_ok_witness :
  (200 <= 200 <= 299)%Z /\
  onSnapshot_v0 (mkHistoryState [] false None) (PostResponse 200)
    (HNetworkFailure (mkJsError (Some "Failed to fetch"%string)))
    = (mkHistoryState [] false (Some "Failed to fetch"%string),
       ["Snapshot saved & history refreshed."%string]).
Proof.
  assert (H : (200 <= 200 <= 299)%Z) by lia.
  split; [exact H|].
  destruct (onSnapshot_v0_post_ok (mkHistoryState [] false None) 200
              (HNetworkFailure (mkJsError (Some "Failed to fetch"%string))) H)
    as [st' [Hf Ho]].
  rewrite Ho. vm_compute in Hf. injection Hf as <-. reflexivity.
Defined.

(** ** What the predictions table shows *)

(** While loading, the body is the single message ["Loading…"]: no error
    and no rows. *)
Theorem page_body_loading (st : page_state) (sorted : list GameView) :
  loading st = true -> page_body st sorted = [RowMessage "Loading…" false].
Proof. intros H. unfold page_body. rewrite H. reflexivity. Qed.

Lemma page_body_loading_witness :
  page_body (mkPageState [scenario_row1] true (Some "HTTP 500"%string)) [scenario_row1]
    = [RowMessage "Loading…" false].
Proof.
  exact (page_body_loading (mkPageState [scenario_row1] true (Some "HTTP 500"%string))
           [scenario_row1] eq_refl).
Defined.

(** Not loading, with a non-empty error string [e], the body is the single
    error message ["Error: " ++ e]: the rows are hidden. *)
Theorem page_body_error (st : page_state) (sorted : list GameView) (e : string) :
  loading st = false -> err st = Some e -> e <> ""%string ->
  page_body st sorted = [RowMessage ("Error: " ++ e)%string true].
Proof.
  intros Hl He Hne. unfold page_body, truthy_str. rewrite Hl, He.
  apply String.eqb_neq in Hne. rewrite Hne. reflexivity.
Qed.

Lemma page_body_error_witness :
  page_body (mkPageState [scenario_row1] false (Some "HTTP 500"%string)) [scenario_row1]
    = [RowMessage "Error: HTTP 500" true].
Proof.
  apply (page_body_error _ _ "HTTP 500"); [reflexivity|reflexivity|discriminate].
Defined.

(** Not loading, with no error or an empty error string (which is falsy),
    the body is the rows in the given order, preceded by
    ["No games found."] exactly when there are none. *)
Theorem page_body_rows (st : page_state) (sorted : list GameView) :
  loading st = false -> (err st = None \/ err st = Some ""%string) ->
  page_body st sorted =
    (if (length sorted =? 0)%nat then [RowMessage "No games found." false] else []) ++
    map GameRow sorted.
Proof.
  intros Hl He. unfold page_body.
  assert (Ht : truthy_str (err st) = false) by (destruct He as [->| ->]; reflexivity).
  rewrite Hl, Ht. reflexivity.
Qed.

Lemma page_body_rows_witness :
  page_body (mkPageState [] false (Some ""%string)) [] = [RowMessage "No games found." false].
Proof. exact (page_body_rows (mkPageState [] false (Some ""%string)) [] eq_refl (or_intror eq_refl)). Defined.

(** After a load answered with a non-2xx status [N], whatever the sort
    state, the table shows only ["Error: HTTP N"]. *)
Theorem home_body_after_http_error (st : page_state) (s : sort_state game_key)
    (N : Z) (body : json_result) :
  (N < 200 \/ 299 < N)%Z ->
  exists st', fetchData st (Response N body) = Normal st' /\
    home_body st' s = [RowMessage ("Error: HTTP " ++ pretty N)%string true].
Proof.
  intros HN. eexists. split.
  - unfold fetchData, fetchData_try. rewrite res_ok_false by exact HN. reflexivity.
  - unfold home_body. apply page_body_error; [reflexivity|reflexivity|].
    discriminate.
Qed.

Lemma home_body_after_http_error_witness :
  (503 < 200 \/ 299 < 503)%Z /\
  exists st', fetchData (mkPageState [] false None) (Response 503 (JsonOk [])) = Normal st' /\
    home_body st' (mkSortState k_pick_prob desc) = [RowMessage "Error: HTTP 503" true].
Proof.
  assert (H : (503 < 200 \/ 299 < 503)%Z) by lia. split; [exact H|].
  exact (home_body_after_http_error (mkPageState [] false None)
           (mkSortState k_pick_prob desc) 503 (JsonOk []) H).
Defined.

(** The earlier predictions page (part_000) keeps the rows on screen while
    loading: the body is the sorted rows followed by ["Loading…"]. *)
Theorem part0_body_loading (st : page_state) (sorted : list GameView) :
  loading st = true ->
  part0_body st sorted = map GameRow sorted ++ [RowMessage "Loading…" false].
Proof. intros H. unfold part0_body. rewrite H. reflexivity. Qed.

Lemma part0_body_loading_witness :
  part0_body (mkPageState [scenario_row1] true None) [scenario_row1]
    = [GameRow scenario_row1; RowMessage "Loading…" false].
Proof. exact (part0_body_loading (mkPageState [scenario_row1] true None) _ eq_refl). Defined.

(** In the earlier predictions page, a load answered with a non-2xx status
    [N] leaves the previous rows in the table and shows ["HTTP N"] in the
    banner above it. *)
Theorem part0_after_http_error (st : page_state) (N : Z) (body : json_result)
    (s : sort_state game_key) :
  (N < 200 \/ 299 < N)%Z ->
  exists st', fetchData st (Response N body) = Normal st' /\
    part0_banner st' = Some ("HTTP " ++ pretty N)%string /\
    part0_body st' (game_view (rows st') s) =
      map GameRow (game_view (rows st) s) ++
      (if (length (rows st) =? 0)%nat then [RowMessage "No games found." false] else []).
Proof.
  intros HN. eexists. split.
  - unfold fetchData, fetchData_try. rewrite res_ok_false by exact HN. reflexivity.
  - split; [reflexivity|]. unfold part0_body, game_view, game_sorted. simpl.
    rewrite (Permutation_length (js_sort_perm _ (rows st))), app_nil_r. reflexivity.
Qed.

Lemma part0_after_http_error_witness :
  (500 < 200 \/ 299 < 500)%Z /\
  part0_banner (mkPageState [scenario_row1] false (Some "HTTP 500"%string))
    = Some "HTTP 500"%string.
Proof.
  assert (H : (500 < 200 \/ 299 < 500)%Z) by lia. split; [exact H|].
  destruct (part0_after_http_error (mkPageState [scenario_row1] false None) 500
              (JsonOk []) (mkSortState k_pick_prob desc) H) as [st' [Hf [Hb _]]].
  vm_compute in Hf. injection Hf as <-. exact Hb.
Defined.

(** ** The sort arrows *)

(** After a click on the header of [key], that header shows the arrow of
    the new direction (["▼"] for a newly selected key, the flipped arrow for
    the active key) and every other header shows none. *)
Theorem header_arrow_after_toggle {K : Type} `{EqDecision K}
    (s : sort_state K) (key k : K) :
  k <> key ->
  header_arrow (toggleSort s key) key =
    Some (if bool_decide (sortKey s = key)
          then match sortDir s with asc => "▼" | desc => "▲" end
          else "▼")%string /\
  header_arrow (toggleSort s key) k = None.
Proof.
  intros Hk. unfold header_arrow, toggleSort.
  destruct (decide (sortKey s = key)) as [E|E]; simpl.
  - rewrite E, !bool_decide_eq_true_2 by reflexivity.
    rewrite bool_decide_eq_false_2 by congruence.
    split; [|reflexivity]. destruct (sortDir s); reflexivity.
  - rewrite !bool_decide_eq_true_2 by reflexivity.
    rewrite (bool_decide_eq_false_2 (sortKey s = key)) by exact E.
    rewrite bool_decide_eq_false_2 by congruence. split; reflexivity.
Qed.

Lemma header_arrow_after_toggle_witness :
  k_pick_prob <> k_pred_margin /\
  header_arrow (toggleSort (mkSortState k_pick_prob desc) k_pred_margin) k_pick_prob = None.
Proof.
  assert (H : k_pick_prob <> k_pred_margin) by discriminate. split; [exact H|].
  exact (proj2 (header_arrow_after_toggle (mkSortState k_pick_prob desc)
                  k_pred_margin k_pick_prob H)).
Defined.

(** ** More on the sort *)

Lemma js_sort_of_sorted {A : Type} (cmp : A -> A -> Q) (l : list A) :
  StronglySorted (cmp_le cmp) l -> js_sort cmp l = l.
Proof.
  induction l as [|x l IH]; intros Hs; [reflexivity|].
  apply StronglySorted_inv in Hs as [Hl Hx]. simpl. rewrite (IH Hl).
  destruct l as [|y l]; [reflexivity|]. simpl.
  inversion Hx as [|? ? Hxy _]; subst.
  unfold cmp_le in Hxy. apply Qle_bool_iff in Hxy. rewrite Hxy. reflexivity.
Qed.

Lemma ext_lt_asym (a b : ext) : ext_lt a b = true -> ext_lt b a = false.
Proof.
  destruct a as [|x], b as [|y]; simpl; try congruence.
  unfold Qltb. split_qle; intros; try reflexivity; lra.
Qed.

(** Sorting the sorted view again by the same key and direction changes
    nothing. *)
Theorem game_sorted_idempotent (rows : list GameView) (k : game_key) (d : sort_dir) :
  game_sorted (game_sorted rows k d) k d = game_sorted rows k d.
Proof.
  unfold game_sorted. apply js_sort_of_sorted, js_sort_sorted.
  - apply game_cmp_total.
  - apply game_cmp_trans.
Qed.

(** The predictions view is ordered by the key (a missing value counting as
    [-Infinity]): under [asc] no later row has a smaller value than an
    earlier one, under [desc] no later row has a larger one; rows with equal
    values come by decreasing [pick_prob ?? 0]. *)
Theorem game_sorted_ordered (rows : list GameView) (k : game_key) (d : sort_dir)
    (i j : nat) (a b : GameView) :
  (i < j)%nat ->
  game_sorted rows k d !! i = Some a -> game_sorted rows k d !! j = Some b ->
  let av := or_neg_inf (game_get k a) in
  let bv := or_neg_inf (game_get k b) in
  match d with asc => ext_lt bv av = false | desc => ext_lt av bv = false end /\
  (ext_lt av bv = false -> ext_lt bv av = false ->
   or_zero (pick_prob b) <= or_zero (pick_prob a)).
Proof.
  intros Hij Ha Hb.
  pose proof (strongly_sorted_lookup (game_cmp k d) _ i j a b
                (js_sort_sorted _ (game_cmp_total k d) (game_cmp_trans k d) rows)
                Hij Ha Hb) as Hle.
  unfold cmp_le, game_cmp in Hle. cbv zeta in Hle |- *. split.
  - destruct d.
    + destruct (ext_lt _ _) eqn:E1 in |- *; [|reflexivity].
      rewrite (ext_lt_asym _ _ E1), E1 in Hle. exfalso. cbn iota in Hle. lra.
    + destruct (ext_lt _ _) eqn:E1 in |- *; [|reflexivity].
      rewrite E1 in Hle. exfalso. cbn iota in Hle. lra.
  - intros H1 H2. rewrite H1, H2 in Hle. lra.
Qed.

Lemma game_sorted_ordered_witness :
  game_sorted [scenario_row1; scenario_row3] k_pred_margin desc !! 0%nat = Some scenario_row3 /\
  game_sorted [scenario_row1; scenario_row3] k_pred_margin desc !! 1%nat = Some scenario_row1 /\
  ext_lt (Fin 7) (Fin 3) = false.
Proof.
  split; [reflexivity|]. split; [reflexivity|].
  exact (proj1 (game_sorted_ordered [scenario_row1; scenario_row3] k_pred_margin desc
                  0 1 scenario_row3 scenario_row1 ltac:(lia) eq_refl eq_refl)).
Defined.

(** ** The output of [toFixed] *)

Lemma string_app_cons (c : ascii) (s1 s2 : string) :
  (String c s1 ++ s2)%string = String c (s1 ++ s2).
Proof. reflexivity. Qed.

Lemma all_digits_app (s1 s2 : string) :
  all_digits (s1 ++ s2) = all_digits s1 && all_digits s2.
Proof.
  induction s1 as [|c s1 IH]; [reflexivity|].
  rewrite string_app_cons. simpl. rewrite IH. apply andb_assoc.
Qed.

Lemma all_digits_substring (n m : nat) (s : string) :
  all_digits s = true -> all_digits (substring n m s) = true.
Proof.
  revert n m. induction s as [|c s IH]; intros n m Hs;
    destruct n, m; simpl in *; try reflexivity; try assumption.
  - apply andb_prop in Hs as [Hc Hs]. rewrite Hc. simpl. apply IH, Hs.
  - apply andb_prop in Hs as [_ Hs]. apply IH, Hs.
  - apply andb_prop in Hs as [_ Hs]. apply IH, Hs.
Qed.

Lemma length_substring (n m : nat) (s : string) :
  (n + m <= String.length s)%nat -> String.length (substring n m s) = m.
Proof.
  revert n m. induction s as [|c s IH]; intros n m Hs;
    destruct n, m; simpl in *; try reflexivity; try lia.
  - f_equal. apply IH. lia.
  - apply IH. lia.
  - apply IH. lia.
Qed.

Lemma string_app_assoc (s1 s2 s3 : string) :
  ((s1 ++ s2) ++ s3 = s1 ++ (s2 ++ s3))%string.
Proof.
  induction s1 as [|c s1 IH]; [reflexivity|].
  rewrite !string_app_cons, IH. reflexivity.
Qed.

Lemma length_string_app (s1 s2 : string) :
  String.length (s1 ++ s2) = (String.length s1 + String.length s2)%nat.
Proof.
  induction s1 as [|c s1 IH]; [reflexivity|].
  rewrite string_app_cons. simpl. rewrite IH. reflexivity.
Qed.

Lemma zeros_length_digits (n : nat) :
  String.length (zeros n) = n /\ all_digits (zeros n) = true.
Proof. induction n as [|n [IH1 IH2]]; simpl; [split; reflexivity|]. rewrite IH1, IH2. split; reflexivity. Qed.

Lemma pretty_N_char_digit (x : N) : is_digit (pretty_N_char x) = true.
Proof. unfold pretty_N_char. repeat case_match; reflexivity. Qed.

Lemma pretty_N_go_digits (x : N) (s : string) :
  all_digits s = true ->
  all_digits (pretty_N_go x s) = true /\
  (String.length s <= String.length (pretty_N_go x s))%nat.
Proof.
  revert s. induction (N.lt_wf_0 x) as [x _ IH]; intros s Hs.
  destruct (decide (x = 0%N)) as [->|Hx].
  - rewrite pretty_N_go_0. split; [exact Hs | lia].
  - rewrite pretty_N_go_step by lia.
    destruct (IH (x `div` 10)%N ltac:(apply N.div_lt; lia)
                (String (pretty_N_char (x `mod` 10)) s)) as [H1 H2].
    + simpl. rewrite pretty_N_char_digit, Hs. reflexivity.
    + split; [exact H1|]. simpl in H2. lia.
Qed.

(** The integer part [m] of [toFixed] before the decimal point is placed. *)
Lemma toFixed_digits_of (n : Z) :
  (0 <= n)%Z ->
  let m := if (n =? 0)%Z then "0"%string else pretty n in
  all_digits m = true /\ (1 <= String.length m)%nat.
Proof.
  intros Hn. cbv zeta. destruct n as [|p|p]; [split; [reflexivity | simpl; lia] | | lia].
  simpl. unfold pretty, pretty_Z, pretty_positive, pretty, pretty_N.
  destruct (decide (N.pos p = 0%N)) as [E|_]; [discriminate|].
  rewrite pretty_N_go_step by lia.
  destruct (pretty_N_go_digits (N.pos p `div` 10)%N
              (String (pretty_N_char (N.pos p `mod` 10)) "")) as [H1 H2].
  - simpl. rewrite pretty_N_char_digit. reflexivity.
  - split; [exact H1|]. simpl in H2. lia.
Qed.

(** For [1 <= f <= 100] and [|x| < 1e21], [x.toFixed(f)] is an optional
    ["-"], a non-empty run of digits, a ["."] and exactly [f] digits. *)
Theorem toFixed_format (number_to_string : Q -> string) (x : Q) (f : nat) :
  (1 <= f <= 100)%nat -> Qabs x < inject_Z (10 ^ 21) ->
  exists ip fp,
    toFixed number_to_string x f =
      Some ((if Qltb x 0 then "-" else "") ++ ip ++ "." ++ fp)%string /\
    ip <> EmptyString /\ all_digits ip = true /\
    String.length fp = f /\ all_digits fp = true.
Proof.
  intros Hf Hx. unfold toFixed.
  replace (100 <? f)%nat with false by (symmetry; apply Nat.ltb_ge; lia).
  assert (Hx' : 0 <= (if Qltb x 0 then - x else x) /\
                (if Qltb x 0 then - x else x) < inject_Z (10 ^ 21)).
  { unfold Qltb. destruct (Qle_bool 0 x) eqn:E; cbn [negb].
    - apply Qle_bool_iff in E. rewrite Qabs_pos in Hx by exact E. split; assumption.
    - apply Qle_bool_false in E. rewrite Qabs_neg in Hx by lra. split; lra. }
  destruct Hx' as [Hx0 Hx1].
  replace (Qle_bool (inject_Z (10 ^ 21)) (if Qltb x 0 then - x else x)) with false
    by (symmetry; destruct (Qle_bool _ _) eqn:E; [apply Qle_bool_iff in E; lra | reflexivity]).
  set (y := if Qltb x 0 then - x else x) in *.
  set (n := Qfloor (y * inject_Z (10 ^ Z.of_nat f) + (1 # 2))).
  assert (Hn : (0 <= n)%Z).
  { unfold n. change 0%Z with (Qfloor 0). apply Qfloor_resp_le.
    assert (0 <= y * inject_Z (10 ^ Z.of_nat f)).
    { apply Qmult_le_0_compat; [exact Hx0|].
      change 0 with (inject_Z 0). rewrite <- Zle_Qle. apply Z.pow_nonneg. lia. }
    lra. }
  destruct (toFixed_digits_of n Hn) as [Hd Hl]. cbv zeta in Hd, Hl.
  set (m := if (n =? 0)%Z then "0"%string else pretty n) in *.
  cbv zeta. fold n. fold m.
  replace (f =? 0)%nat with false by (symmetry; apply Nat.eqb_neq; lia).
  destruct (String.length m <=? f)%nat eqn:Ek.
  - set (m' := (zeros (f + 1 - String.length m) ++ m)%string).
    destruct (zeros_length_digits (f + 1 - String.length m)) as [Zl Zd].
    assert (Hm'l : String.length m' = (f + 1)%nat).
    { unfold m'. rewrite length_string_app, Zl. apply Nat.leb_le in Ek. lia. }
    assert (Hm'd : all_digits m' = true).
    { unfold m'. rewrite all_digits_app, Zd, Hd. reflexivity. }
    exists (substring 0 (f + 1 - f) m'), (substring (f + 1 - f) f m').
    split; [reflexivity|].
    split; [|split; [apply all_digits_substring, Hm'd|split]].
    + intros E. apply (f_equal String.length) in E.
      rewrite length_substring in E by lia. simpl in E. lia.
    + apply length_substring. lia.
    + apply all_digits_substring, Hm'd.
  - apply Nat.leb_gt in Ek.
    exists (substring 0 (String.length m - f) m),
           (substring (String.length m - f) f m).
    split; [reflexivity|].
    split; [|split; [apply all_digits_substring, Hd|split]].
    + intros E. apply (f_equal String.length) in E.
      rewrite length_substring in E by lia. simpl in E. lia.
    + apply length_substring. lia.
    + apply all_digits_substring, Hd.
Qed.


Lemma toFixed_format_witness :
  (1 <= 2 <= 100)%nat /\ Qabs (-1.5) < inject_Z (10 ^ 21) /\
  toFixed (fun _ => EmptyString) (-1.5) 2 = Some "-1.50"%string /\
  exists ip fp,
    toFixed (fun _ => EmptyString) (-1.5) 2 =
      Some ((if Qltb (-1.5) 0 then "-" else "") ++ ip ++ "." ++ fp)%string /\
    ip <> EmptyString /\ all_digits ip = true /\
    String.length fp = 2%nat /\ all_digits fp = true.
Proof.
  split; [lia|]. split; [reflexivity|]. split; [vm_compute; reflexivity|].
  exact (toFixed_format (fun _ => EmptyString) (-1.5) 2 ltac:(lia) eq_refl).
Defined.


(** ** [parseInt] of a number field *)

Lemma string_app_nil_l (s : string) : ("" ++ s)%string = s.
Proof. reflexivity. Qed.

Lemma digit_value_digit (c : ascii) (d : Z) :
  digit_value c = Some d -> (d < 10)%Z -> is_digit c = true.
Proof.
  unfold digit_value, is_digit.
  destruct ((48 <=? _)%Z && (_ <=? 57)%Z) eqn:E1.
  - intros _ _. apply andb_prop in E1 as [E1 E2].
    apply Z.leb_le in E1, E2. apply andb_true_intro. split; apply Nat.leb_le; lia.
  - destruct ((97 <=? _)%Z && (_ <=? 122)%Z) eqn:E2.
    + intros [= <-] H. apply andb_prop in E2 as [E2 _]. apply Z.leb_le in E2. lia.
    + destruct ((65 <=? _)%Z && (_ <=? 90)%Z) eqn:E3; [|discriminate].
      intros [= <-] H. apply andb_prop in E3 as [E3 _]. apply Z.leb_le in E3. lia.
Qed.

Lemma is_digit_value (c : ascii) :
  is_digit c = true ->
  digit_value c = Some (Z.of_nat (nat_of_ascii c) - 48)%Z /\
  (0 <= Z.of_nat (nat_of_ascii c) - 48 < 10)%Z.
Proof.
  unfold is_digit, digit_value. intros H. apply andb_prop in H as [H1 H2].
  apply Nat.leb_le in H1, H2.
  replace ((48 <=? Z.of_nat (nat_of_ascii c))%Z && (Z.of_nat (nat_of_ascii c) <=? 57)%Z)
    with true by (symmetry; apply andb_true_intro; split; apply Z.leb_le; lia).
  split; [reflexivity | lia].
Qed.

(** Digits followed by something that is not a digit: the prefix is the
    digits. *)
Lemma digits_prefix_app (digs rest : string) :
  all_digits digs = true ->
  digits_prefix 10 (digs ++ rest) = digits_prefix 10 digs ++ digits_prefix 10 rest.
Proof.
  induction digs as [|c digs IH]; intros H; [reflexivity|].
  rewrite string_app_cons. simpl in H. apply andb_prop in H as [Hc H].
  destruct (is_digit_value c Hc) as [Hv Hr]. simpl. rewrite Hv.
  replace (Z.of_nat (nat_of_ascii c) - 48 <? 10)%Z with true
    by (symmetry; apply Z.ltb_lt; lia).
  rewrite IH by exact H. reflexivity.
Qed.

Lemma digits_prefix_stop (rest : string) :
  match rest with String c _ => is_digit c = false | EmptyString => True end ->
  digits_prefix 10 rest = [].
Proof.
  destruct rest as [|c rest]; [reflexivity|]. intros Hc. simpl.
  destruct (digit_value c) as [d|] eqn:Hd; [|reflexivity].
  destruct (d <? 10)%Z eqn:Hlt; [|reflexivity].
  apply Z.ltb_lt in Hlt. rewrite (digit_value_digit c d Hd Hlt) in Hc. discriminate.
Qed.

Lemma pretty_N_char_value (x : N) :
  (x < 10)%N -> digit_value (pretty_N_char x) = Some (Z.of_N x).
Proof.
  intros H.
  assert (x = 0 \/ x = 1 \/ x = 2 \/ x = 3 \/ x = 4 \/ x = 5 \/ x = 6 \/ x = 7
          \/ x = 8 \/ x = 9)%N as Hx by lia.
  repeat destruct Hx as [->|Hx]; try reflexivity. subst. reflexivity.
Qed.

(** [pretty_N_go x s] writes the decimal digits of [x] in front of [s]. *)
Lemma pretty_N_go_split (x : N) (s : string) :
  exists digs,
    pretty_N_go x s = (digs ++ s)%string /\ all_digits digs = true /\
    ((0 < x)%N -> digs <> EmptyString) /\
    forall acc, fold_left (fun a d => a * 10 + d)%Z (digits_prefix 10 digs) acc =
                (acc * 10 ^ Z.of_nat (String.length digs) + Z.of_N x)%Z.
Proof.
  revert s. induction (N.lt_wf_0 x) as [x _ IH]; intros s.
  destruct (decide (x = 0%N)) as [->|Hx].
  - exists EmptyString. rewrite pretty_N_go_0.
    split; [reflexivity|]. split; [reflexivity|]. split; [lia|].
    intros acc. simpl. lia.
  - rewrite pretty_N_go_step by lia.
    destruct (IH (x `div` 10)%N ltac:(apply N.div_lt; lia)
                (String (pretty_N_char (x `mod` 10)) s))
      as (digs & E & Hd & _ & Hv).
    assert (Hm : (x `mod` 10 < 10)%N) by (apply N.mod_lt; lia).
    exists (digs ++ String (pretty_N_char (x `mod` 10)) "")%string.
    split; [rewrite E, string_app_assoc; reflexivity|].
    split; [rewrite all_digits_app, Hd; simpl; rewrite pretty_N_char_digit; reflexivity|].
    split.
    { intros _ Hnil. apply (f_equal String.length) in Hnil.
      rewrite length_string_app in Hnil. simpl in Hnil. lia. }
    intros acc. rewrite digits_prefix_app by exact Hd.
    simpl. rewrite pretty_N_char_value by exact Hm.
    replace (Z.of_N (x `mod` 10) <? 10)%Z with true
      by (symmetry; apply Z.ltb_lt; lia).
    rewrite fold_left_app, Hv, length_string_app. simpl.
    rewrite Nat.add_1_r, Nat2Z.inj_succ, Z.pow_succ_r by lia.
    pose proof (N.div_mod x 10 ltac:(lia)) as Hdm.
    rewrite N2Z.inj_div, N2Z.inj_mod.
    pose proof (Z.div_mod (Z.of_N x) 10 ltac:(lia)).
    lia.
Qed.

Lemma digit_not_space (c : ascii) : is_digit c = true -> is_space_char c = false.
Proof.
  unfold is_digit, is_space_char. intros H. apply andb_prop in H as [H1 H2].
  apply Nat.leb_le in H1, H2.
  destruct (9 <=? _)%nat, (_ <=? 13)%nat eqn:E; simpl;
    try apply Nat.leb_le in E; try (apply Nat.eqb_neq; lia); lia.
Qed.

Lemma digit_ne (c c' : ascii) : is_digit c = true -> is_digit c' = false -> (c =? c')%char = false.
Proof.
  intros H H'. apply Ascii.eqb_neq. intros ->. congruence.
Qed.

(** A string of digits, then something that starts no number: the radix is
    10 and the value is that of the digits. *)
Lemma parse_digits_tail (sign : Z) (digs rest : string) :
  all_digits digs = true -> digs <> EmptyString ->
  match rest with
  | String c _ => is_digit c = false /\ c <> "x"%char /\ c <> "X"%char
  | EmptyString => True
  end ->
  (let '(R, str) := parse_radix (digs ++ rest) in
   match digits_prefix R str with
   | [] => None
   | ds => Some (sign * digits_value R ds)%Z
   end) = Some (sign * digits_value 10 (digits_prefix 10 digs))%Z.
Proof.
  intros Hd Hne Hr.
  assert (Hrad : parse_radix (digs ++ rest) = (10%Z, (digs ++ rest)%string)).
  { destruct digs as [|c [|c2 digs]]; [contradiction| |].
    - rewrite string_app_cons, string_app_nil_l.
      destruct rest as [|c2 rest]; [reflexivity|]. destruct Hr as (_ & Hx & HX).
      simpl. apply Ascii.eqb_neq in Hx, HX. rewrite Hx, HX.
      destruct (c =? "0")%char; reflexivity.
    - rewrite !string_app_cons. simpl in Hd.
      apply andb_prop in Hd as [_ Hd]. apply andb_prop in Hd as [Hc2 _].
      simpl. rewrite (digit_ne c2 "x" Hc2 eq_refl), (digit_ne c2 "X" Hc2 eq_refl).
      destruct (c =? "0")%char; reflexivity. }
  rewrite Hrad. cbv iota beta.
  rewrite digits_prefix_app by exact Hd.
  rewrite (digits_prefix_stop rest) by (destruct rest; [exact I | apply Hr]).
  rewrite app_nil_r.
  destruct digs as [|c digs]; [contradiction|].
  simpl in Hd. apply andb_prop in Hd as [Hc _].
  destruct (is_digit_value c Hc) as [Hv Hlt].
  simpl. rewrite Hv.
  replace (Z.of_nat (nat_of_ascii c) - 48 <? 10)%Z with true
    by (symmetry; apply Z.ltb_lt; lia).
  reflexivity.
Qed.

(** Typing an integer into the season, week or limit field, possibly
    followed by a fraction or an exponent, sets the state to that integer. *)
Theorem parse_input_pretty (n : Z) (rest : string) :
  (Z.abs n <= 2 ^ 53)%Z ->
  match rest with
  | String c _ => is_digit c = false /\ c <> "x"%char /\ c <> "X"%char
  | EmptyString => True
  end ->
  parse_input (pretty n ++ rest) = Some n.
Proof.
  intros _ Hr. unfold parse_input.
  destruct n as [|p|p].
  - change (pretty 0%Z) with "0"%string. rewrite string_app_cons, string_app_nil_l.
    simpl String.eqb. cbv iota.
    unfold parseInt. simpl trim_start. simpl parse_sign. cbv iota beta.
    rewrite <- (string_app_nil_l rest), <- string_app_cons.
    rewrite (parse_digits_tail 1 "0" rest eq_refl ltac:(discriminate) Hr).
    reflexivity.
  - destruct (pretty_N_go_split (N.pos p) "") as (digs & E & Hd & Hne & Hv).
    assert (Hp : pretty (Z.pos p) = (digs ++ "")%string).
    { rewrite <- E. unfold pretty, pretty_Z, pretty_positive, pretty, pretty_N.
      destruct (decide (N.pos p = 0%N)); [discriminate | reflexivity]. }
    specialize (Hne ltac:(lia)).
    rewrite Hp, string_app_assoc, string_app_nil_l.
    destruct digs as [|c digs']; [contradiction|].
    pose proof Hd as Hc. simpl in Hc. apply andb_prop in Hc as [Hc _].
    rewrite string_app_cons. simpl String.eqb. cbv iota.
    unfold parseInt. simpl trim_start. rewrite (digit_not_space c Hc).
    simpl parse_sign. rewrite (digit_ne c "-" Hc eq_refl), (digit_ne c "+" Hc eq_refl).
    cbv iota beta. rewrite <- string_app_cons.
    rewrite (parse_digits_tail 1 (String c digs') rest Hd Hne Hr).
    unfold digits_value. rewrite Hv. f_equal; lia.
  - destruct (pretty_N_go_split (N.pos p) "") as (digs & E & Hd & Hne & Hv).
    assert (Hp : pretty (Z.neg p) = ("-" ++ (digs ++ ""))%string).
    { rewrite <- E. unfold pretty, pretty_Z, pretty_positive, pretty, pretty_N.
      destruct (decide (N.pos p = 0%N)); [discriminate | reflexivity]. }
    specialize (Hne ltac:(lia)).
    rewrite Hp, string_app_assoc, string_app_assoc, string_app_nil_l.
    change ("-" ++ (digs ++ rest))%string with (String "-" (digs ++ rest)).
    simpl String.eqb. cbv iota.
    unfold parseInt. simpl trim_start. simpl parse_sign. cbv iota beta.
    rewrite (parse_digits_tail (-1) digs rest Hd Hne Hr).
    unfold digits_value. rewrite Hv. f_equal; lia.
Qed.

Lemma parse_input_pretty_witness :
  (Z.abs 2025 <= 2 ^ 53)%Z /\
  (is_digit "." = false /\ "."%char <> "x"%char /\ "."%char <> "X"%char) /\
  parse_input (pretty 2025%Z ++ ".5") = Some 2025%Z.
Proof.
  split; [vm_compute; discriminate|].
  split; [split; [reflexivity | split; discriminate]|].
  apply parse_input_pretty.
  - vm_compute. discriminate.
  - simpl. split; [reflexivity | split; discriminate].
Defined.

(** ** The history sort *)

Lemma ascii_compare_N (a b : ascii) :
  Ascii.compare a b = N.compare (N_of_ascii a) (N_of_ascii b).
Proof. reflexivity. Qed.


(** [<] on strings is a strict weak order: if [c < a] then [c < b] or
    [b < a]. *)
Lemma string_lt_ntrans (c a b : string) :
  String.compare c a = Lt -> String.compare c b = Lt \/ String.compare b a = Lt.
Proof.
  revert a b. induction c as [|x c IH]; intros [|y a] [|z b]; simpl;
    try discriminate; auto.
  rewrite !ascii_compare_N.
  destruct (N.compare_spec (N_of_ascii x) (N_of_ascii y)) as [Exy|Exy|Exy];
  destruct (N.compare_spec (N_of_ascii x) (N_of_ascii z)) as [Exz|Exz|Exz];
  destruct (N.compare_spec (N_of_ascii z) (N_of_ascii y)) as [Ezy|Ezy|Ezy];
  intros H; try discriminate; auto; try (exfalso; lia).
  all: apply IH, H.
Qed.

Lemma string_lt_asym (a b : string) :
  String.compare a b = Lt -> String.compare b a <> Lt.
Proof.
  intros H. rewrite String.compare_antisym, H. discriminate.
Qed.

Lemma hval_lt_asym (a b : hval) : hval_lt a b = true -> hval_lt b a = false.
Proof.
  destruct a as [x|s], b as [y|t]; simpl; try discriminate.
  - unfold Qltb. split_qle; intros; try reflexivity; lra.
  - destruct (String.compare s t) eqn:E; try discriminate. intros _.
    destruct (String.compare t s) eqn:E'; try reflexivity.
    exfalso. exact (string_lt_asym _ _ E E').
Qed.

(** At a fixed key all values have one type, and [<] is a strict weak order. *)
Lemma hval_lt_ntrans (k : history_key) (a b c : HistoryRow) :
  hval_lt (history_get k c) (history_get k a) = true ->
  hval_lt (history_get k c) (history_get k b) = true \/
  hval_lt (history_get k b) (history_get k a) = true.
Proof.
  destruct k; simpl.
  all: lazymatch goal with
       | |- Qltb ?c ?a = true -> Qltb ?c ?b = true \/ Qltb ?b ?a = true =>
           unfold Qltb; split_qle; intros;
           first [discriminate | left; reflexivity | right; reflexivity | lra]
       | |- context [String.compare ?c ?a] =>
           destruct (String.compare c a) eqn:E; try discriminate; intros _;
           lazymatch goal with
           | |- context [String.compare ?b a] =>
               destruct (string_lt_ntrans c a b E) as [H|H]; rewrite H; auto
           end
       end.
Qed.

Lemma history_cmp_total (k : history_key) (d : sort_dir) (a b : HistoryRow) :
  ~ cmp_le (history_cmp k d) a b -> cmp_le (history_cmp k d) b a.
Proof.
  unfold cmp_le, history_cmp. cbv zeta.
  destruct (hval_lt (history_get k a) (history_get k b)) eqn:E1;
  [rewrite (hval_lt_asym _ _ E1)|];
  destruct (hval_lt (history_get k b) (history_get k a)) eqn:E2;
  destruct d; intros; lra.
Qed.

Lemma history_cmp_trans (k : history_key) (d : sort_dir) (a b c : HistoryRow) :
  cmp_le (history_cmp k d) a b -> cmp_le (history_cmp k d) b c ->
  cmp_le (history_cmp k d) a c.
Proof.
  unfold cmp_le, history_cmp. cbv zeta. destruct d.
  - (* asc: [a <= b] iff not [b < a] *)
    assert (Hle : forall x y, (if hval_lt (history_get k x) (history_get k y) then -1
                   else if hval_lt (history_get k y) (history_get k x) then 1 else 0) <= 0
                  <-> hval_lt (history_get k y) (history_get k x) = false).
    { intros x y. destruct (hval_lt (history_get k x) (history_get k y)) eqn:E.
      - rewrite (hval_lt_asym _ _ E). split; intros; [reflexivity | lra].
      - destruct (hval_lt (history_get k y) (history_get k x)); split; intros;
          try reflexivity; try discriminate; lra. }
    rewrite !Hle. intros H1 H2.
    destruct (hval_lt (history_get k c) (history_get k a)) eqn:E; [|reflexivity].
    destruct (hval_lt_ntrans k a b c E) as [H|H]; congruence.
  - (* desc: [a <= b] iff not [a < b] *)
    assert (Hle : forall x y, (if hval_lt (history_get k x) (history_get k y) then 1
                   else if hval_lt (history_get k y) (history_get k x) then -1 else 0) <= 0
                  <-> hval_lt (history_get k x) (history_get k y) = false).
    { intros x y. destruct (hval_lt (history_get k x) (history_get k y)) eqn:E.
      - split; intros; [lra | discriminate].
      - destruct (hval_lt (history_get k y) (history_get k x)); split; intros;
          try reflexivity; lra. }
    rewrite !Hle. intros H1 H2.
    destruct (hval_lt (history_get k a) (history_get k c)) eqn:E; [|reflexivity].
    destruct (hval_lt_ntrans k c b a E) as [H|H]; congruence.
Qed.

(** The history table is ordered by the key: under [asc] no later row is
    [<] an earlier one, under [desc] no earlier row is [<] a later one. *)
Theorem history_sorted_ordered (rows : list HistoryRow) (k : history_key)
    (d : sort_dir) (i j : nat) (a b : HistoryRow) :
  (i < j)%nat ->
  history_sorted rows k d !! i = Some a -> history_sorted rows k d !! j = Some b ->
  match d with
  | asc => hval_lt (history_get k b) (history_get k a) = false
  | desc => hval_lt (history_get k a) (history_get k b) = false
  end.
Proof.
  intros Hij Ha Hb.
  pose proof (strongly_sorted_lookup (history_cmp k d) _ i j a b
                (js_sort_sorted _ (history_cmp_total k d) (history_cmp_trans k d) rows)
                Hij Ha Hb) as Hle.
  unfold cmp_le, history_cmp in Hle. cbv zeta in Hle.
  destruct d.
  - destruct (hval_lt (history_get k b) (history_get k a)) eqn:E; [|reflexivity].
    rewrite (hval_lt_asym _ _ E) in Hle. rewrite ?E in Hle. exfalso. cbn iota in Hle. lra.
  - destruct (hval_lt (history_get k a) (history_get k b)) eqn:E; [|reflexivity].
    rewrite ?E in Hle. exfalso. cbn iota in Hle. lra.
Qed.

(** Sorting the history table again by the same key and direction changes
    nothing. *)
Theorem history_sorted_idempotent (rows : list HistoryRow) (k : history_key)
    (d : sort_dir) :
  history_sorted (history_sorted rows k d) k d = history_sorted rows k d.
Proof.
  unfold history_sorted. apply js_sort_of_sorted, js_sort_sorted.
  - apply history_cmp_total.
  - apply history_cmp_trans.
Qed.

Lemma history_sorted_ordered_witness :
  history_sorted [history_margin_row 1 3 0.5; history_margin_row 2 7 0.6]
    hk_pred_margin desc !! 0%nat = Some (history_margin_row 2 7 0.6) /\
  history_sorted [history_margin_row 1 3 0.5; history_margin_row 2 7 0.6]
    hk_pred_margin desc !! 1%nat = Some (history_margin_row 1 3 0.5) /\
  hval_lt (history_get hk_pred_margin (history_margin_row 2 7 0.6))
    (history_get hk_pred_margin (history_margin_row 1 3 0.5)) = false.
Proof.
  split; [reflexivity|]. split; [reflexivity|].
  apply (history_sorted_ordered [history_margin_row 1 3 0.5; history_margin_row 2 7 0.6]
           hk_pred_margin desc 0 1); [lia | reflexivity | reflexivity].
Defined.

(** ** The keys of the history rows *)

Lemma pretty_Z_shape (n : Z) :
  ((0 <= n)%Z -> all_digits (pretty n) = true /\ pretty n <> EmptyString) /\
  ((n < 0)%Z -> exists d, pretty n = ("-" ++ d)%string /\
                          all_digits d = true /\ d <> EmptyString).
Proof.
  split.
  - intros Hn. destruct (toFixed_digits_of n Hn) as [Hd Hl]. cbv zeta in Hd, Hl.
    assert (E : (if (n =? 0)%Z then "0"%string else pretty n) = pretty n)
      by (destruct (Z.eqb_spec n 0) as [->|_]; reflexivity).
    rewrite E in Hd, Hl. split; [exact Hd|].
    intros H. rewrite H in Hl. simpl in Hl. lia.
  - intros Hn. destruct n as [|p|p]; [lia|lia|].
    exists (pretty (Z.pos p)).
    destruct (toFixed_digits_of (Z.pos p) ltac:(lia)) as [Hd Hl]. cbv zeta in Hd, Hl.
    simpl in Hd, Hl. split; [reflexivity|]. split; [exact Hd|].
    intros H. rewrite H in Hl. simpl in Hl. lia.
Qed.

Lemma digits_dash_inj (d1 d2 g1 g2 : string) :
  all_digits d1 = true -> all_digits d2 = true ->
  (d1 ++ "-" ++ g1)%string = (d2 ++ "-" ++ g2)%string -> d1 = d2 /\ g1 = g2.
Proof.
  revert d2. induction d1 as [|c1 d1 IH]; intros [|c2 d2] H1 H2 E.
  - injection E as E. split; [reflexivity | exact E].
  - injection E as Ec _. subst c2. discriminate H2.
  - injection E as Ec _. subst c1. discriminate H1.
  - rewrite !string_app_cons in E. injection E as -> E.
    simpl in H1, H2. apply andb_prop in H1 as [_ H1]. apply andb_prop in H2 as [_ H2].
    destruct (IH d2 H1 H2 E) as [-> ->]. split; reflexivity.
Qed.

Lemma js_number_to_string_int (nts : Q -> string) (n : Z) :
  (Z.abs n < 10 ^ 21)%Z -> js_number_to_string nts (inject_Z n) = pretty n.
Proof.
  intros Hn. unfold js_number_to_string. rewrite Qfloor_Z.
  replace (Qeq_bool (inject_Z n) (inject_Z n)) with true
    by (symmetry; apply Qeq_bool_iff; reflexivity).
  replace (Qltb (Qabs (inject_Z n)) (inject_Z (10 ^ 21))) with true; [reflexivity|].
  unfold Qltb.
  replace (Qabs (inject_Z n)) with (inject_Z (Z.abs n)) by (destruct n; reflexivity).
  destruct (Qle_bool (inject_Z (10 ^ 21)) (inject_Z (Z.abs n))) eqn:E; [|reflexivity].
  apply Qle_bool_iff in E. rewrite <- Zle_Qle in E. lia.
Qed.

(** Rows with integer ids below [1e21] get the same React key only when they
    have the same id and the same [game_id]: the keys of a table whose
    [(id, game_id)] pairs are distinct are distinct. *)
Theorem history_row_key_inj (nts : Q -> string) (r1 r2 : HistoryRow) (n1 n2 : Z) :
  h_id r1 = inject_Z n1 -> h_id r2 = inject_Z n2 ->
  (Z.abs n1 < 10 ^ 21)%Z -> (Z.abs n2 < 10 ^ 21)%Z ->
  history_row_key nts r1 = history_row_key nts r2 ->
  n1 = n2 /\ h_game_id r1 = h_game_id r2.
Proof.
  intros E1 E2 B1 B2 E. unfold history_row_key in E.
  rewrite E1, E2, !js_number_to_string_int in E by assumption.
  destruct (pretty_Z_shape n1) as [P1 N1], (pretty_Z_shape n2) as [P2 N2].
  destruct (Z.le_gt_cases 0 n1) as [H1|H1], (Z.le_gt_cases 0 n2) as [H2|H2].
  - destruct (P1 H1) as [D1 _], (P2 H2) as [D2 _].
    destruct (digits_dash_inj _ _ _ _ D1 D2 E) as [Ep Eg].
    split; [apply (inj pretty), Ep | exact Eg].
  - destruct (P1 H1) as [D1 Ne1], (N2 H2) as (d2 & Ep2 & _).
    rewrite Ep2 in E. destruct (pretty n1) as [|c d1] eqn:Ep1; [contradiction|].
    injection E as Ec _. subst c. discriminate D1.
  - destruct (N1 H1) as (d1 & Ep1 & _), (P2 H2) as [D2 Ne2].
    rewrite Ep1 in E. destruct (pretty n2) as [|c d2] eqn:Ep2; [contradiction|].
    injection E as Ec _. subst c. discriminate D2.
  - destruct (N1 H1) as (d1 & Ep1 & D1 & _), (N2 H2) as (d2 & Ep2 & D2 & _).
    rewrite Ep1, Ep2 in E. injection E as E.
    destruct (digits_dash_inj _ _ _ _ D1 D2 E) as [Ed Eg].
    split; [apply (inj pretty); rewrite Ep1, Ep2, Ed; reflexivity | exact Eg].
Qed.

Lemma history_row_key_inj_witness :
  h_id (history_margin_row 7 3 0.5) = inject_Z 7 /\ (Z.abs 7 < 10 ^ 21)%Z /\
  history_row_key (fun _ => EmptyString) (history_margin_row 7 3 0.5) = "7-g"%string /\
  (7 = 7)%Z /\ h_game_id (history_margin_row 7 3 0.5) = h_game_id (history_margin_row 7 3 0.5).
Proof.
  split; [reflexivity|]. split; [vm_compute; reflexivity|]. split; [vm_compute; reflexivity|].
  apply (history_row_key_inj (fun _ => EmptyString)
           (history_margin_row 7 3 0.5) (history_margin_row 7 3 0.5) 7 7);
    [reflexivity | reflexivity | vm_compute; reflexivity | vm_compute; reflexivity | reflexivity].
Defined.
